(** * The chat client of minagishl/message: a model of [src/App.tsx]

    The component is a set of callbacks over six pieces of React state, a
    backend client (Supabase: auth, the [messages] table, realtime
    channels), the page's DOM and the browser's timers.  The callbacks are
    embedded as programs of a small command language ([Async]) that
    suspends at every [await]; a world holds the component state, the
    suspended continuations and the observable effects, and an event
    relation drives it the way the browser's event loop does.

    The typing indicator and the persisted notification preference belong
    to the revision of [App.tsx] that carries them; they are embedded in
    [Module Typing] and [Module Preference]. *)

From stdpp Require Import gmap strings list sorting.

Open Scope Z_scope.

(** ** JavaScript strings *)

(** A JavaScript string is a sequence of UTF-16 code units. *)
Abbreviation jsstring := (list N).

Definition js (s : string) : jsstring :=
  Ascii.N_of_ascii <$> String.list_ascii_of_string s.

(** [WhiteSpace] and [LineTerminator] of ECMAScript, the code units that
    [String.prototype.trim] strips. *)
Definition is_white_space (c : N) : bool :=
  (bool_decide (c ∈ [9; 10; 11; 12; 13; 32; 160; 5760]%N)
   || ((8192 <=? c) && (c <=? 8202))
   || bool_decide (c ∈ [8232; 8233; 8239; 8287; 12288; 65279]%N))%N.

Fixpoint trimStart (s : jsstring) : jsstring :=
  match s with
  | c :: s' => if is_white_space c then trimStart s' else s
  | [] => []
  end.

Definition trimEnd (s : jsstring) : jsstring := reverse (trimStart (reverse s)).

Definition trim (s : jsstring) : jsstring := trimEnd (trimStart s).

(** [!s] on a string: only the empty string is falsy. *)
Definition falsy (s : jsstring) : bool := bool_decide (s = []).

(** [a || b] on possibly missing strings. *)
Definition js_or (a b : option jsstring) : option jsstring :=
  match a with
  | Some s => if falsy s then b else a
  | None => b
  end.

(** ** Data model *)

(** [interface Message]; [created_at] is the [timestamptz] column of the
    migration, an instant counted in microseconds. *)
Module Message.
Record t := mk {
  id : jsstring;
  user_id : jsstring;
  content : jsstring;
  created_at : Z;
  user_avatar : option jsstring;
  user_name : option jsstring
}.
End Message.

(** A field of [user_metadata], which is untyped JSON: the key is absent
    (it reads as [undefined]), or holds null, or holds a string. *)
Inductive metadata_string :=
  | absent
  | json_null
  | json_text (s : jsstring).

(** The string such a field holds, if it holds one. *)
Definition text_of (v : metadata_string) : option jsstring :=
  match v with
  | json_text s => Some s
  | absent | json_null => None
  end.

Module UserMetadata.
Record t := mk { user_name : metadata_string; avatar_url : option jsstring }.
End UserMetadata.

Module User.
Record t := mk {
  id : jsstring;
  email : option jsstring;
  user_metadata : UserMetadata.t
}.
End User.

Module Session.
Record t := mk { user : User.t }.
End Session.

(** The object handed to [supabase.from("messages").insert([...])]. *)
Module Row.
Record t := mk {
  content : jsstring;
  user_id : jsstring;
  user_name : option jsstring;
  user_avatar : option jsstring
}.
End Row.

Record PostgrestError := { postgrest_message : jsstring }.
Record AuthError := { auth_message : jsstring }.

(** [{ data, error }] of a select: rows on success, an error otherwise. *)
Inductive PostgrestResponse :=
  | Success (data : list Message.t)
  | Failure (error : PostgrestError).

(** [.order("created_at", { ascending: false })] followed by [.limit(n)]
    or [.range(from, to)]. *)
Inductive query :=
  | limit (n : Z)
  | range (from to : Z).

Inductive auth_call :=
  | signInWithOAuth (provider : string)
  | signOut.

(** The box of a scrollable element, in CSS pixels. *)
Record ScrollBox := { scrollHeight : Z; clientHeight : Z; scrollTop : Z }.

(** The position the browser stores when [scrollTop] is assigned [v]: the
    value is clamped to the scrollable range, from 0 to
    [scrollHeight - clientHeight]. *)
Definition clamped (box : ScrollBox) (v : Z) : Z :=
  Z.max 0 (Z.min v (scrollHeight box - clientHeight box)).

(** A reference to the element with the given id. *)
Inductive HTMLElement := element (id : string).

(** ** Component state *)

Record AppState := {
  session : option Session.t;
  messages : list Message.t;
  newMessage : jsstring;
  isNotificationEnabled : bool;
  isLoading : bool;
  hasMore : bool
}.

Definition MESSAGES_PER_PAGE : Z := 50.

Definition TEMPLATE_MESSAGES : list string :=
  ["Hello! How are you?"; "Thank you for your message!";
   "Could you please explain more?"; "That's interesting!";
   "I understand, let me think about it."]%string.

(** ** Commands *)

(** Statements that complete at once. *)
Inductive action :=
  | preventDefault
  | toast_error (msg : string)
  | scrollIntoView
  | snd_load
  | snd_play
  | console_log (s : jsstring)
  | onAuthStateChange
  | channel_subscribe (name : string)
  | removeChannel (name : string)
  | setSession (s : option Session.t)
  | setMessages (f : list Message.t → list Message.t)
  | setNewMessage (s : jsstring)
  | setIsNotificationEnabled (b : bool)
  | setIsLoading (b : bool)
  | setHasMore (b : bool).

(** A callback body.  Each [Await*] suspends the callback until the
    backend settles the call; [Fork] starts a promise without awaiting
    it. *)
Inductive Async :=
  | Return
  | Do (a : action) (k : Async)
  | AwaitInsert (row : Row.t) (k : option PostgrestError → Async)
  | AwaitSelect (q : query) (k : PostgrestResponse → Async)
  | AwaitAuth (c : auth_call) (k : option AuthError → Async)
  | AwaitSession (k : option Session.t → Async)
  | Fork (p : Async) (k : Async)
  | GetElementById (id : string) (k : option HTMLElement → Async)
  | ReadScroll (el : HTMLElement) (k : ScrollBox → Async)
  | WriteScrollTop (el : HTMLElement) (v : Z) (k : Async)
  | SetTimeout (cb : Async) (ms : Z) (k : Async)
  | RequestAnimationFrame (cb : Async) (k : Async).

Declare Scope async_scope.
Delimit Scope async_scope with async.
Bind Scope async_scope with Async.

Notation "a ;; k" := (Do a k)
  (at level 100, k at level 200, right associativity) : async_scope.
Notation "'let*' x ':=' c 'in' k" := (c (λ x, k))
  (at level 10, x name, c at level 100, k at level 200, only parsing)
  : async_scope.

(** [if (c) a;] in the middle of a sequence. *)
Definition when (c : bool) (a : action) (k : Async) : Async :=
  if c then Do a k else k.

(** ** The callbacks of [App] *)

Definition handleLogin_settled (error : option AuthError) : Async :=
  match error with
  | Some _ => toast_error "Failed to login" ;; Return
  | None => Return
  end%async.

Definition handleLogin : Async :=
  AwaitAuth (signInWithOAuth "github") handleLogin_settled.

Definition handleLogout_settled (error : option AuthError) : Async :=
  match error with
  | Some _ => toast_error "Failed to logout" ;; Return
  | None => Return
  end%async.

Definition handleLogout : Async := AwaitAuth signOut handleLogout_settled.

Definition scrollToEnd : Async := (scrollIntoView ;; Return)%async.

(** [handleSendMessage] after [await ... insert]. *)
Definition handleSendMessage_settled (error : option PostgrestError) : Async :=
  match error with
  | Some _ => toast_error "Failed to send message" ;; Return
  | None => setNewMessage [] ;; SetTimeout scrollToEnd 300 Return
  end%async.

(** [newMessage] and [session] are the values of the render the callback
    was created in. *)
Definition handleSendMessage (newMessage : jsstring)
    (session : option Session.t) : Async :=
  (preventDefault ;;
   if falsy (trim newMessage) || bool_decide (session = None) then Return
   else
     match session with
     | None => Return
     | Some s =>
         let u := Session.user s in
         AwaitInsert
           {| Row.content := newMessage;
              Row.user_id := User.id u;
              Row.user_name :=
                js_or (text_of (UserMetadata.user_name (User.user_metadata u)))
                      (User.email u);
              Row.user_avatar :=
                UserMetadata.avatar_url (User.user_metadata u) |}
           handleSendMessage_settled
     end)%async.

(** The animation-frame callback of [fetchMessages]. *)
Definition restoreScroll (messagesDiv : HTMLElement)
    (distanceFromBottom : Z) : Async :=
  (let* box := ReadScroll messagesDiv in
   WriteScrollTop messagesDiv (scrollHeight box - distanceFromBottom) Return)%async.

(** [fetchMessages(offset)] after [await ... range]. *)
Definition fetchMessages_settled (offset : Z) (r : PostgrestResponse) : Async :=
  (let* messagesDiv := GetElementById "messages" in
   let* distanceFromBottom :=
     (λ k, match messagesDiv with
           | Some el => ReadScroll el (λ box, k (scrollHeight box - scrollTop box))
           | None => k 0
           end) in
   match r with
   | Failure _ =>
       toast_error "Failed to fetch messages" ;; setIsLoading false ;; Return
   | Success data =>
       when (Z.of_nat (length data) <? MESSAGES_PER_PAGE) (setHasMore false)
       (if offset =? 0 then
          setMessages (λ _, reverse data) ;; setIsLoading false ;; Return
        else
          setMessages (λ prev, reverse data ++ prev) ;;
          match messagesDiv with
          | Some el =>
              RequestAnimationFrame (restoreScroll el distanceFromBottom)
                (setIsLoading false ;; Return)
          | None => setIsLoading false ;; Return
          end)
   end)%async.

Definition fetchMessages (offset : Z) : Async :=
  (setIsLoading true ;;
   AwaitSelect (range offset (offset + MESSAGES_PER_PAGE - 1))
     (fetchMessages_settled offset))%async.

(** The [fetchMessages] local to the second effect, after its [await]. *)
Definition effect_fetchMessages_settled (r : PostgrestResponse) : Async :=
  match r with
  | Failure _ => toast_error "Failed to fetch messages" ;; Return
  | Success data => setMessages (λ _, reverse data) ;; scrollIntoView ;; Return
  end%async.

Definition effect_fetchMessages : Async :=
  AwaitSelect (limit 50) effect_fetchMessages_settled.

(** [getSession().then(...)]. *)
Definition getSession_then (s : option Session.t) : Async :=
  (setSession s ;; Return)%async.

(** First effect, run once. *)
Definition useEffect_auth : Async :=
  (snd_load ;;
   Fork (AwaitSession getSession_then)
     (onAuthStateChange ;; Return))%async.

(** Second effect, run at mount and again whenever
    [isNotificationEnabled] changes. *)
Definition useEffect_messages : Async :=
  Fork effect_fetchMessages (channel_subscribe "messages" ;; Return)%async.

Definition useEffect_messages_cleanup : Async :=
  (removeChannel "messages" ;; Return)%async.

(** The realtime [INSERT] callback; the flag is the one of the render
    that subscribed. *)
Definition on_postgres_changes (isNotificationEnabled : bool)
    (payload_new : Message.t) : Async :=
  (setMessages (λ prev, prev ++ [payload_new]) ;;
   if isNotificationEnabled then
     console_log (Message.content payload_new) ;; snd_play ;; Return
   else Return)%async.

(** ** The world around the component *)

Inductive request :=
  | ReqInsert (row : Row.t)
  | ReqSelect (q : query)
  | ReqAuth (c : auth_call)
  | ReqGetSession.

(** What the page and the backend observe of a callback. *)
Inductive effect :=
  | Requested (r : request)
  | Toast (msg : string)
  | ConsoleLog (s : jsstring)
  | Called (a : action).

(** A suspended callback: what it waits for and how it goes on. *)
Inductive Task :=
  | OnInsert (row : Row.t) (k : option PostgrestError → Async)
  | OnSelect (q : query) (k : PostgrestResponse → Async)
  | OnAuth (c : auth_call) (k : option AuthError → Async)
  | OnSession (k : option Session.t → Async)
  | Timer (ms : Z) (cb : Async)
  | Frame (cb : Async).

Record World := {
  app : AppState;
  document : gmap string ScrollBox;
  pending : gmap nat Task;
  next_id : nat;
  log : list effect
}.

Definition with_app (f : AppState → AppState) (w : World) : World :=
  {| app := f (app w); document := document w; pending := pending w;
     next_id := next_id w; log := log w |}.

Definition emit (e : effect) (w : World) : World :=
  {| app := app w; document := document w; pending := pending w;
     next_id := next_id w; log := log w ++ [e] |}.

Definition spawn (t : Task) (w : World) : World :=
  {| app := app w; document := document w;
     pending := <[next_id w := t]> (pending w);
     next_id := S (next_id w); log := log w |}.

Definition settle (id : nat) (w : World) : World :=
  {| app := app w; document := document w; pending := delete id (pending w);
     next_id := next_id w; log := log w |}.

Definition with_document (d : gmap string ScrollBox) (w : World) : World :=
  {| app := app w; document := d; pending := pending w;
     next_id := next_id w; log := log w |}.

Definition set_session v (s : AppState) : AppState :=
  {| session := v; messages := messages s; newMessage := newMessage s;
     isNotificationEnabled := isNotificationEnabled s;
     isLoading := isLoading s; hasMore := hasMore s |}.
Definition set_messages v (s : AppState) : AppState :=
  {| session := session s; messages := v; newMessage := newMessage s;
     isNotificationEnabled := isNotificationEnabled s;
     isLoading := isLoading s; hasMore := hasMore s |}.
Definition set_newMessage v (s : AppState) : AppState :=
  {| session := session s; messages := messages s; newMessage := v;
     isNotificationEnabled := isNotificationEnabled s;
     isLoading := isLoading s; hasMore := hasMore s |}.
Definition set_isNotificationEnabled v (s : AppState) : AppState :=
  {| session := session s; messages := messages s; newMessage := newMessage s;
     isNotificationEnabled := v;
     isLoading := isLoading s; hasMore := hasMore s |}.
Definition set_isLoading v (s : AppState) : AppState :=
  {| session := session s; messages := messages s; newMessage := newMessage s;
     isNotificationEnabled := isNotificationEnabled s;
     isLoading := v; hasMore := hasMore s |}.
Definition set_hasMore v (s : AppState) : AppState :=
  {| session := session s; messages := messages s; newMessage := newMessage s;
     isNotificationEnabled := isNotificationEnabled s;
     isLoading := isLoading s; hasMore := v |}.

Definition perform (a : action) (w : World) : World :=
  match a with
  | toast_error msg => emit (Toast msg) w
  | console_log s => emit (ConsoleLog s) w
  | setSession s => with_app (set_session s) w
  | setMessages f => with_app (λ s, set_messages (f (messages s)) s) w
  | setNewMessage v => with_app (set_newMessage v) w
  | setIsNotificationEnabled b => with_app (set_isNotificationEnabled b) w
  | setIsLoading b => with_app (set_isLoading b) w
  | setHasMore b => with_app (set_hasMore b) w
  | _ => emit (Called a) w
  end.

(** An element that is not in the document reads as an empty box, and
    writes to it are lost. *)
Definition box_of (el : HTMLElement) (w : World) : ScrollBox :=
  let 'element id := el in
  default {| scrollHeight := 0; clientHeight := 0; scrollTop := 0 |}
    (document w !! id).

Definition write_scrollTop (el : HTMLElement) (v : Z) (w : World) : World :=
  let 'element id := el in
  with_document
    (alter (λ b, {| scrollHeight := scrollHeight b;
                    clientHeight := clientHeight b;
                    scrollTop := clamped b v |}) id
       (document w)) w.

(** Runs a callback up to its next [await]. *)
Fixpoint run (p : Async) (w : World) : World :=
  match p with
  | Return => w
  | Do a k => run k (perform a w)
  | AwaitInsert row k => spawn (OnInsert row k) (emit (Requested (ReqInsert row)) w)
  | AwaitSelect q k => spawn (OnSelect q k) (emit (Requested (ReqSelect q)) w)
  | AwaitAuth c k => spawn (OnAuth c k) (emit (Requested (ReqAuth c)) w)
  | AwaitSession k => spawn (OnSession k) (emit (Requested ReqGetSession) w)
  | Fork p' k => run k (run p' w)
  | GetElementById id k =>
      run (k (if bool_decide (is_Some (document w !! id))
              then Some (element id) else None)) w
  | ReadScroll el k => run (k (box_of el w)) w
  | WriteScrollTop el v k => run k (write_scrollTop el v w)
  | SetTimeout cb ms k => run k (spawn (Timer ms cb) w)
  | RequestAnimationFrame cb k => run k (spawn (Frame cb) w)
  end.

(** ** What [App] renders *)

Inductive HeaderButton := LogoutButton | LoginButton.

Record LoadMoreButton := { load_more_disabled : bool; load_more_label : string }.

(** The parts of the returned tree that depend on the state. *)
Record View := {
  notification_on : bool;
  header_button : HeaderButton;
  load_more : option LoadMoreButton;
  rows : list Message.t;
  templates : list string;
  input_value : jsstring;
  input_placeholder : string;
  input_disabled : bool;
  submit_disabled : bool
}.

Definition render (s : AppState) : View :=
  let logged_in := bool_decide (is_Some (session s)) in
  {| notification_on := isNotificationEnabled s;
     header_button := if logged_in then LogoutButton else LoginButton;
     load_more :=
       if hasMore s then
         Some {| load_more_disabled := isLoading s;
                 load_more_label :=
                   if isLoading s then "Loading..." else "Load past messages" |}
       else None;
     rows := messages s;
     templates := if logged_in then TEMPLATE_MESSAGES else [];
     input_value := newMessage s;
     input_placeholder :=
       if logged_in then "Type your message..." else "Please login to chat";
     input_disabled := negb logged_in;
     submit_disabled := negb logged_in |}.

(** ** Events *)

Inductive event :=
  | InsertSettled (id : nat) (error : option PostgrestError)
  | SelectSettled (id : nat) (r : PostgrestResponse)
  | AuthSettled (id : nat) (error : option AuthError)
  | SessionSettled (id : nat) (s : option Session.t)
  | TimerFired (id : nat)
  | FrameFired (id : nat)
  | AuthStateChanged (s : option Session.t)
  | PostgresChanges (payload_new : Message.t)
  | Layout (d : gmap string ScrollBox)
  | Submit
  | ClickLogin
  | ClickLogout
  | ClickLoadMore
  | ClickNotification
  | Change (value : jsstring)
  | ClickTemplate (index : nat).

(** The header toggle: the state change, then the second effect again. *)
Definition toggleNotification (isNotificationEnabled : bool) : Async :=
  (setIsNotificationEnabled (negb isNotificationEnabled) ;;
   Fork useEffect_messages_cleanup useEffect_messages)%async.

(** One turn of the event loop.  A control that is not rendered, or is
    rendered disabled, delivers nothing; a settlement for a task that is
    not pending is dropped. *)
Definition step (w : World) (ev : event) : World :=
  let s := app w in
  let v := render s in
  match ev with
  | InsertSettled id error =>
      match pending w !! id with
      | Some (OnInsert _ k) => run (k error) (settle id w)
      | _ => w
      end
  | SelectSettled id r =>
      match pending w !! id with
      | Some (OnSelect _ k) => run (k r) (settle id w)
      | _ => w
      end
  | AuthSettled id error =>
      match pending w !! id with
      | Some (OnAuth _ k) => run (k error) (settle id w)
      | _ => w
      end
  | SessionSettled id s' =>
      match pending w !! id with
      | Some (OnSession k) => run (k s') (settle id w)
      | _ => w
      end
  | TimerFired id =>
      match pending w !! id with
      | Some (Timer _ cb) => run cb (settle id w)
      | _ => w
      end
  | FrameFired id =>
      match pending w !! id with
      | Some (Frame cb) => run cb (settle id w)
      | _ => w
      end
  | AuthStateChanged s' => run (setSession s' ;; Return) w
  | PostgresChanges m => run (on_postgres_changes (isNotificationEnabled s) m) w
  | Layout d => with_document d w
  | Submit => run (handleSendMessage (newMessage s) (session s)) w
  | ClickLogin =>
      match header_button v with
      | LoginButton => run handleLogin w
      | LogoutButton => w
      end
  | ClickLogout =>
      match header_button v with
      | LogoutButton => run handleLogout w
      | LoginButton => w
      end
  | ClickLoadMore =>
      match load_more v with
      | Some b =>
          if load_more_disabled b then w
          else run (fetchMessages (Z.of_nat (length (messages s)))) w
      | None => w
      end
  | ClickNotification => run (toggleNotification (isNotificationEnabled s)) w
  | Change value =>
      if input_disabled v then w else run (setNewMessage value ;; Return) w
  | ClickTemplate index =>
      match templates v !! index with
      | Some template => run (setNewMessage (js template) ;; Return) w
      | None => w
      end
  end.

Definition steps (evs : list event) (w : World) : World := foldl step w evs.

Definition initial_state : AppState :=
  {| session := None; messages := []; newMessage := [];
     isNotificationEnabled := false; isLoading := false; hasMore := true |}.

Definition blank : World :=
  {| app := initial_state;
     document :=
       {[ "messages"%string :=
            {| scrollHeight := 0; clientHeight := 0; scrollTop := 0 |} ]};
     pending := ∅; next_id := 0; log := [] |}.

(** The world once both effects have run. *)
Definition mount : World := run useEffect_messages (run useEffect_auth blank).

Definition reachable (w : World) : Prop := ∃ evs, w = steps evs mount.

(** The insert requests in a log. *)
Definition inserts (l : list effect) : list Row.t :=
  omap (λ e, match e with Requested (ReqInsert row) => Some row | _ => None end) l.

(** The backend requests in a log. *)
Definition requests (l : list effect) : list request :=
  omap (λ e, match e with Requested r => Some r | _ => None end) l.

(** ** Typing indicator (the revision of [App.tsx] with [typingUsers]) *)

Module TypingUser.
Record t := mk { user_name : option jsstring; timestamp : Z }.
End TypingUser.

Module Typing.

Definition TYPING_TIMEOUT : Z := 3000.

(** The period handed to [setInterval]. *)
Definition SWEEP_INTERVAL : Z := 1000.

(** The payload [handleTyping] broadcasts; nothing without a session. *)
Definition handleTyping (session : option Session.t)
    : option (jsstring * option jsstring) :=
  match session with
  | None => None
  | Some s =>
      Some (User.id (Session.user s),
            text_of (UserMetadata.user_name (User.user_metadata (Session.user s))))
  end.

(** The ["typing"] broadcast callback; [now] is [Date.now()]. *)
Definition on_typing (now : Z) (user_id : jsstring)
    (user_name : option jsstring) (prev : gmap jsstring TypingUser.t)
    : gmap jsstring TypingUser.t :=
  <[user_id := {| TypingUser.user_name := user_name;
                  TypingUser.timestamp := now |}]> prev.

(** The body of the interval callback's [forEach]. *)
Definition drop_expired (now : Z) (newTypingUsers : gmap jsstring TypingUser.t)
    (entry : jsstring * TypingUser.t) : gmap jsstring TypingUser.t :=
  let '(id, data) := entry in
  if now - TypingUser.timestamp data >? TYPING_TIMEOUT
  then delete id newTypingUsers else newTypingUsers.

(** The interval callback: a copy of [prev] without the entries older
    than the timeout. *)
Definition sweep (now : Z) (prev : gmap jsstring TypingUser.t)
    : gmap jsstring TypingUser.t :=
  foldl (drop_expired now) prev (map_to_list prev).

Inductive typing_event :=
  | Broadcast (user_id : jsstring) (user_name : option jsstring)
  | Tick.

(** An event and the clock reading it is handled at, in milliseconds. *)
Definition typing_step (m : gmap jsstring TypingUser.t)
    (e : Z * typing_event) : gmap jsstring TypingUser.t :=
  match e.2 with
  | Broadcast user_id user_name => on_typing e.1 user_id user_name m
  | Tick => sweep e.1 m
  end.

Definition typing_run (tr : list (Z * typing_event))
    : gmap jsstring TypingUser.t :=
  foldl typing_step ∅ tr.

(** The map a render at clock reading [at_] works from: every event
    handled up to then has been applied. *)
Definition typingUsers_at (at_ : Z) (tr : list (Z * typing_event))
    : gmap jsstring TypingUser.t :=
  typing_run (filter (λ e, e.1 ≤ at_) tr).



(** Handled in clock order. *)
Definition chronological (tr : list (Z * typing_event)) : Prop :=
  StronglySorted (λ a b, a.1 ≤ b.1) tr.

End Typing.

(** ** The typing effect and its interval (same revision) *)

Module TypingEffect.

(** What the effect with dependency [session] works on: the session, the
    [typingUsers] state, and the clock reading at which the interval the
    effect has registered calls back next (none while no interval is
    registered). *)
Record state := {
  session : option Session.t;
  typingUsers : gmap jsstring TypingUser.t;
  interval : option Z
}.

Definition initial : state :=
  {| session := None; typingUsers := ∅; interval := None |}.

(** One call of the interval callback, on time: [Date.now()] is the clock
    reading the call was due at. *)
Definition tick (st : state) : state :=
  match interval st with
  | Some due =>
      {| session := session st;
         typingUsers := Typing.sweep due (typingUsers st);
         interval := Some (due + Typing.SWEEP_INTERVAL) |}
  | None => st
  end.

(** The calls of the interval callback due up to [now]. *)
Definition advance (now : Z) (st : state) : state :=
  match interval st with
  | Some due =>
      Nat.iter (Z.to_nat ((now - due) / Typing.SWEEP_INTERVAL + 1)) tick st
  | None => st
  end.

Inductive input :=
  | SetSession (s : option Session.t)
  | Broadcast (user_id : jsstring) (user_name : option jsstring).

(** A change of [session]: the cleanup of the previous run of the effect
    (the channel is removed, the interval cleared), then the effect again,
    which returns at once without a session and otherwise subscribes the
    channel and registers an interval.  [typingUsers] is not touched. *)
Definition useEffect_typing (now : Z) (s : option Session.t) (st : state) : state :=
  {| session := s;
     typingUsers := typingUsers st;
     interval := match s with
                 | Some _ => Some (now + Typing.SWEEP_INTERVAL)
                 | None => None
                 end |}.

(** An input at a clock reading: the interval calls due by then come
    first; a broadcast is received only while the channel is subscribed,
    that is, with a session. *)
Definition handle (st : state) (e : Z * input) : state :=
  let st := advance e.1 st in
  match e.2 with
  | SetSession s => useEffect_typing e.1 s st
  | Broadcast user_id user_name =>
      match session st with
      | Some _ =>
          {| session := session st;
             typingUsers := Typing.on_typing e.1 user_id user_name (typingUsers st);
             interval := interval st |}
      | None => st
      end
  end.

Definition replay (tr : list (Z * input)) : state := foldl handle initial tr.

(** The map a render at clock reading [at_] works from. *)
Definition typingUsers_at (at_ : Z) (tr : list (Z * input))
    : gmap jsstring TypingUser.t :=
  typingUsers (advance at_ (replay (filter (λ e, e.1 ≤ at_) tr))).

Definition chronological (tr : list (Z * input)) : Prop :=
  StronglySorted (λ a b, a.1 ≤ b.1) tr.





End TypingEffect.

(** ** Notification preference (same revision) *)

Module Preference.

Definition KEY : string := "isNotificationEnabled".

(** [window.localStorage]. *)
Definition getItem (key : string) (storage : gmap string string)
    : option string := storage !! key.

Definition setItem (key value : string) (storage : gmap string string)
    : gmap string string := <[key := value]> storage.

(** [Boolean.prototype.toString]. *)
Definition toString (b : bool) : string := if b then "true" else "false".

(** The initial value handed to [useState]. *)
Definition initial_isNotificationEnabled (storage : gmap string string) : bool :=
  bool_decide (getItem KEY storage = Some "true"%string) || false.

(** [setNotificationEnabled(value)] on the flag and the storage. *)
Definition setNotificationEnabled (value : bool)
    (st : bool * gmap string string) : bool * gmap string string :=
  (value, setItem KEY (toString value) st.2).

(** The header button. *)
Definition toggle (st : bool * gmap string string)
    : bool * gmap string string :=
  setNotificationEnabled (negb st.1) st.

(** A reload: the flag is read back from the storage. *)
Definition reload (st : bool * gmap string string)
    : bool * gmap string string :=
  (initial_isNotificationEnabled st.2, st.2).

End Preference.

(** ** Message rows *)

(** [String.prototype.startsWith] and [String.prototype.includes]. *)
Fixpoint startsWith (s searchString : jsstring) : bool :=
  match searchString, s with
  | [], _ => true
  | c :: rest, d :: s' => bool_decide (c = d) && startsWith s' rest
  | _ :: _, [] => false
  end.

Fixpoint includes (s searchString : jsstring) : bool :=
  startsWith s searchString
  || match s with
     | [] => false
     | _ :: s' => includes s' searchString
     end.

(** A value that is a string or [missing] inside a template literal;
    [missing] is the text of [undefined] or [null]. *)
Definition interpolate (missing : string) (x : option jsstring) : jsstring :=
  default (js missing) x.

Inductive Bubble := OwnBubble | MentionBubble | PlainBubble.

(** One element of [messages.map(...)]: the date separator if any, the
    side, the bottom margin, the avatar (link and image) or the spacer,
    the name with the Admin badge if shown, and the bubble. *)
Record RowView := {
  row_date : option string;
  row_reversed : bool;
  row_margin : string;
  row_avatar : option (jsstring * jsstring);
  row_label : option (option jsstring * bool);
  row_bubble : Bubble;
  row_content : jsstring
}.

(** [session?.user.id] and [session?.user.user_metadata.user_name]. *)
Definition session_user_id (session : option Session.t) : option jsstring :=
  (λ s, User.id (Session.user s)) <$> session.

Definition session_user_name (session : option Session.t) : metadata_string :=
  match session with
  | None => absent
  | Some s => UserMetadata.user_name (User.user_metadata (Session.user s))
  end.

(** Such a value inside a template literal. *)
Definition template_text (v : metadata_string) : jsstring :=
  match v with
  | absent => js "undefined"
  | json_null => js "null"
  | json_text s => s
  end.

(** The callback of [messages.map]; [toLocaleDateString] stands for
    [new Date(created_at).toLocaleDateString()], which depends on the
    browser's locale and time zone. *)
Definition render_row (toLocaleDateString : Z → string)
    (session : option Session.t) (messages : list Message.t)
    (index : nat) (message : Message.t) : RowView :=
  let previous := match index with O => None | S i => messages !! i end in
  let next := messages !! S index in
  let own := bool_decide (session_user_id session = Some (Message.user_id message)) in
  let same_as_previous :=
    bool_decide (Message.user_id <$> previous = Some (Message.user_id message)) in
  let admin := bool_decide (Message.user_name message = Some (js "minagishl")) in
  {| row_date :=
       match previous with
       | None => Some (toLocaleDateString (Message.created_at message))
       | Some p =>
           if bool_decide (toLocaleDateString (Message.created_at message)
                           ≠ toLocaleDateString (Message.created_at p))
           then Some (toLocaleDateString (Message.created_at message))
           else None
       end;
     row_reversed := own;
     row_margin :=
       if bool_decide (Message.user_id <$> next = Some (Message.user_id message))
       then "mb-1" else "mb-4";
     row_avatar :=
       if same_as_previous then None
       else Some (js "https://github.com/"
                    ++ interpolate "null" (Message.user_name message),
                  default (js "https://via.placeholder.com/40")
                    (js_or (Message.user_avatar message) None));
     row_label :=
       if same_as_previous then None
       else Some (Message.user_name message, admin);
     row_bubble :=
       if own then OwnBubble
       else if includes (Message.content message) (js "@everyone")
               || includes (Message.content message)
                    (js "@" ++ template_text (session_user_name session))
       then MentionBubble
       else PlainBubble;
     row_content := Message.content message |}.

Definition render_rows (toLocaleDateString : Z → string)
    (session : option Session.t) (messages : list Message.t) : list RowView :=
  imap (render_row toLocaleDateString session messages) messages.

(** ** Row-level security of the migration *)

Module Policy.

Inductive role := anon | authenticated.

(** ["Anyone can read messages"]: [FOR SELECT TO authenticated USING (true)]. *)
Definition can_select (r : role) (row : Message.t) : bool :=
  match r with
  | authenticated => true
  | anon => false
  end.

(** ["Users can insert their own messages"]:
    [FOR INSERT TO authenticated WITH CHECK (auth.uid() = user_id)];
    [auth_uid] is [auth.uid()], null without a signed-in user. *)
Definition can_insert (r : role) (auth_uid : option jsstring) (row : Row.t) : bool :=
  match r with
  | authenticated => bool_decide (auth_uid = Some (Row.user_id row))
  | anon => false
  end.

End Policy.

(** ** Orders, invariants and traces used in the statements *)

Definition white (s : jsstring) : Prop := Forall (λ c, is_white_space c = true) s.

(** Display order: oldest first. *)
Definition ascending (l : list Message.t) : Prop :=
  StronglySorted (λ a b, Message.created_at a ≤ Message.created_at b) l.

(** The order the queries ask the backend for: newest first. *)
Definition descending (l : list Message.t) : Prop :=
  StronglySorted (λ a b, Message.created_at b ≤ Message.created_at a) l.

(** The suspended callbacks the component creates. *)
Inductive known : Task → Prop :=
  | known_insert row : known (OnInsert row handleSendMessage_settled)
  | known_initial : known (OnSelect (limit 50) effect_fetchMessages_settled)
  | known_page offset :
      known (OnSelect (range offset (offset + MESSAGES_PER_PAGE - 1))
                      (fetchMessages_settled offset))
  | known_login : known (OnAuth (signInWithOAuth "github") handleLogin_settled)
  | known_logout : known (OnAuth signOut handleLogout_settled)
  | known_session : known (OnSession getSession_then)
  | known_timer : known (Timer 300 scrollToEnd)
  | known_frame el d : known (Frame (restoreScroll el d)).

Definition wf (w : World) : Prop := ∀ id t, pending w !! id = Some t → known t.

(** Nothing in [old] was created after anything in [new]. *)
Definition no_newer_than (old new : list Message.t) : Prop :=
  Forall (λ a, Forall (λ b, Message.created_at a ≤ Message.created_at b) new) old.

(** The backend answers a query with rows in the order asked for. *)
Definition page_in_order (ev : event) : Prop :=
  match ev with
  | SelectSettled _ (Success data) => descending data
  | _ => True
  end.

(** The messages the realtime channel delivers, in delivery order. *)
Definition delivered (evs : list event) : list Message.t :=
  omap (λ ev, match ev with PostgresChanges m => Some m | _ => None end) evs.

(** An event that arrives in time: a realtime message is no older than
    what is displayed, a fetched page is in the order asked for, and a
    page that will be prepended holds nothing newer than what is
    displayed. *)
Definition timely (w : World) (ev : event) : Prop :=
  match ev with
  | PostgresChanges m => no_newer_than (messages (app w)) [m]
  | SelectSettled id (Success data) =>
      match pending w !! id with
      | Some (OnSelect q _) =>
          descending data
          ∧ match q with
            | range from _ => from = 0 ∨ no_newer_than data (messages (app w))
            | limit _ => True
            end
      | _ => True
      end
  | _ => True
  end.

Fixpoint timely_trace (evs : list event) (w : World) : Prop :=
  match evs with
  | [] => True
  | ev :: evs' => timely w ev ∧ timely_trace evs' (step w ev)
  end.

(** The events through which the auth client hands a session to the
    component. *)
Definition reports_session (ev : event) : bool :=
  match ev with
  | AuthStateChanged _ | SessionSettled _ _ => true
  | _ => false
  end.

(** Modelled from the spec: the auth client is not part of the repository
    (the session is "owned by the external auth provider, mirrored
    locally" and "destroyed on logout").  This is how it answers a call
    the component is suspended on: a [signOut] that succeeds destroys the
    session and reports the null session to the [onAuthStateChange]
    listener before the call settles; a call that fails, and a sign-in,
    settle without a report. *)
Definition auth_client_answers (id : nat) (c : auth_call)
    (error : option AuthError) : list event :=
  match c, error with
  | signOut, None => [AuthStateChanged None; AuthSettled id None]
  | _, _ => [AuthSettled id error]
  end.

(** The event that settles a backend call with an error, and the text of
    the notification its call site shows. *)
Definition failure_of (id : nat) (t : Task) (pe : PostgrestError)
    (ae : AuthError) : option (event * string) :=
  match t with
  | OnInsert _ _ => Some (InsertSettled id (Some pe), "Failed to send message"%string)
  | OnSelect _ _ => Some (SelectSettled id (Failure pe), "Failed to fetch messages"%string)
  | OnAuth (signInWithOAuth _) _ => Some (AuthSettled id (Some ae), "Failed to login"%string)
  | OnAuth signOut _ => Some (AuthSettled id (Some ae), "Failed to logout"%string)
  | _ => None
  end.

(** The state a failed call leaves: only the paginated fetch touches it,
    to clear [isLoading]. *)
Definition state_after_failure (t : Task) (s : AppState) : AppState :=
  match t with
  | OnSelect (range _ _) _ => set_isLoading false s
  | _ => s
  end.

(** Distance of the viewport from the bottom of the content. *)
Definition distanceFromBottom (box : ScrollBox) : Z :=
  scrollHeight box - scrollTop box.

(** The row [handleSendMessage] sends for a draft and a session. *)
Definition insert_row (newMessage : jsstring) (s : Session.t) : Row.t :=
  {| Row.content := newMessage;
     Row.user_id := User.id (Session.user s);
     Row.user_name :=
       js_or (text_of (UserMetadata.user_name (User.user_metadata (Session.user s))))
             (User.email (Session.user s));
     Row.user_avatar :=
       UserMetadata.avatar_url (User.user_metadata (Session.user s)) |}.

(** A paginated fetch in flight. *)
Definition paginated (t : Task) : bool :=
  match t with
  | OnSelect (range _ _) _ => true
  | _ => false
  end.

(** The paginated fetches in flight. *)
Definition loads (w : World) : gmap nat Task :=
  filter (λ it, paginated it.2 = true) (pending w).

(** [isLoading] tells whether a paginated fetch is in flight, there is
    at most one, and the ids of suspended callbacks are below the next
    one. *)
Definition one_load (loading : bool) (p : gmap nat Task) (n : nat) : Prop :=
  (∀ id t, p !! id = Some t → (id < n)%nat)
  ∧ if loading then
      ∃ id t, p !! id = Some t ∧ paginated t = true
              ∧ ∀ id' t', p !! id' = Some t' → paginated t' = true → id' = id
    else ∀ id t, p !! id = Some t → paginated t = false.

(** ** Sample data *)

Definition alice : Session.t :=
  {| Session.user :=
       {| User.id := js "u-alice";
          User.email := Some (js "alice@example.org");
          User.user_metadata :=
            {| UserMetadata.user_name := json_text (js "alice");
               UserMetadata.avatar_url := None |} |} |}.

(** A message of another user created at instant [t]. *)
Definition message_at (id : string) (t : Z) : Message.t :=
  {| Message.id := js id; Message.user_id := js "u-bob";
     Message.content := js "hello"; Message.created_at := t;
     Message.user_avatar := None; Message.user_name := Some (js "bob") |}.

(** Alice is logged in and has typed a draft. *)
Definition drafting : World :=
  steps [AuthStateChanged (Some alice); Change (js "hi")] mount.

(** Nobody is logged in. *)
Definition anonymous : World := steps [AuthStateChanged None] mount.

(** A realtime message arrives and "Load past messages" is clicked while
    the first fetch is still in flight; the first fetch then settles
    before the page does.  The table holds [r1], [r2], [r3]. *)
Definition race : list event :=
  [PostgresChanges (message_at "r3" 30);
   ClickLoadMore;
   SelectSettled 1 (Success [message_at "r3" 30; message_at "r2" 20;
                             message_at "r1" 10]);
   SelectSettled 2 (Success [message_at "r2" 20; message_at "r1" 10])].

(** The first page, then a realtime message, then an older page. *)
Definition in_time : list event :=
  [SelectSettled 1 (Success [message_at "r3" 30; message_at "r2" 20]);
   PostgresChanges (message_at "r4" 40);
   ClickLoadMore;
   SelectSettled 2 (Success [message_at "r1" 10])].

(** One message is displayed; "Load past messages" is clicked with the
    box of the messages element at [box0], and the box is [box1] when the
    page is about to settle. *)
Definition loading_more (box0 box1 : ScrollBox) : list event :=
  [SelectSettled 1 (Success [message_at "r2" 20]);
   Layout {[ "messages"%string := box0 ]};
   ClickLoadMore;
   Layout {[ "messages"%string := box1 ]}].

(** The page then settles, the content grows to height [height2], and
    the animation frame runs. *)
Definition load_more_trace (box0 box1 : ScrollBox) (height2 : Z) : list event :=
  loading_more box0 box1
  ++ [SelectSettled 2 (Success [message_at "r1" 10]);
      Layout {[ "messages"%string :=
                  {| scrollHeight := height2; clientHeight := clientHeight box1;
                     scrollTop := scrollTop box1 |} ]};
      FrameFired 3].

(** The last page is empty: one message is displayed with the viewport
    at the top, the page settles with no rows, the control goes away and
    the content is shorter by its height when the animation frame runs. *)
Definition empty_last_page : list event :=
  [SelectSettled 1 (Success [message_at "r2" 20]);
   Layout {[ "messages"%string :=
               {| scrollHeight := 432; clientHeight := 400; scrollTop := 0 |} ]};
   ClickLoadMore;
   SelectSettled 2 (Success []);
   Layout {[ "messages"%string :=
               {| scrollHeight := 400; clientHeight := 400; scrollTop := 0 |} ]};
   FrameFired 3].

(** The user scrolls from 400 to 100 while the page loads. *)
Definition scrolled_while_loading : World :=
  steps (loading_more {| scrollHeight := 1000; clientHeight := 500; scrollTop := 400 |}
                      {| scrollHeight := 1000; clientHeight := 500; scrollTop := 100 |}) mount.

(** Alice is logged in at 0 and Bob's broadcast arrives at 1000. *)
Definition bob_types : list (Z * TypingEffect.input) :=
  [(0, TypingEffect.SetSession (Some alice));
   (1000, TypingEffect.Broadcast (js "u-bob") (Some (js "bob")))].

(** Bob types exactly on a period of the interval. *)
Definition typing_on_the_period : list (Z * Typing.typing_event) :=
  [(0, Typing.Tick); (1000, Typing.Tick);
   (1000, Typing.Broadcast (js "u-bob") (Some (js "bob")));
   (2000, Typing.Tick); (3000, Typing.Tick); (4000, Typing.Tick);
   (5000, Typing.Tick)].

(** * Proofs *)

(** ** Strings *)

Lemma trimStart_nil s : trimStart s = [] ↔ white s.
Proof.
  unfold white. induction s as [|c s IH]; simpl.
  - split; [constructor | done].
  - destruct (is_white_space c) eqn:Hc.
    + rewrite IH. split; [by constructor | by inversion 1].
    + split; [done | inversion 1; congruence].
Qed.

Lemma trimStart_head s c r : trimStart s = c :: r → is_white_space c = false.
Proof.
  induction s as [|c' s IH]; simpl; [done|].
  destruct (is_white_space c') eqn:Hc; [done|]. by intros [= -> _].
Qed.

Lemma trimStart_white s : white (trimStart s) → white s.
Proof.
  intros H. apply trimStart_nil. destruct (trimStart s) as [|c r] eqn:E; [done|].
  apply trimStart_head in E. inversion H; congruence.
Qed.

Lemma trimStart_keeps_white s : white s → white (trimStart s).
Proof. intros H. apply trimStart_nil in H. rewrite H. constructor. Qed.

(** [trim] leaves nothing exactly of the strings made of white space. *)
Lemma trim_nil s : trim s = [] ↔ white s.
Proof.
  unfold trim, trimEnd. split.
  - intros H. apply trimStart_white.
    apply (f_equal reverse) in H. rewrite reverse_involutive in H.
    change (reverse []) with (@nil N) in H. apply trimStart_nil in H.
    unfold white in *. by rewrite Forall_reverse in H.
  - intros H. apply trimStart_keeps_white in H.
    assert (white (reverse (trimStart s))) as H'
      by (unfold white in *; by rewrite Forall_reverse).
    apply trimStart_nil in H'. by rewrite H'.
Qed.

Lemma falsy_trim s : falsy (trim s) = true ↔ white s.
Proof. unfold falsy. rewrite bool_decide_eq_true. apply trim_nil. Qed.

(** ** Logs and worlds *)

Lemma inserts_app l1 l2 : inserts (l1 ++ l2) = inserts l1 ++ inserts l2.
Proof. apply omap_app. Qed.

Lemma requests_app l1 l2 : requests (l1 ++ l2) = requests l1 ++ requests l2.
Proof. apply omap_app. Qed.

(** ** C1 *)

(** C1. A submission with a session and a draft that is not empty once
    trimmed issues exactly one insert request, whose [user_id] is the
    session user's id, and the rest of the callback issues none; a
    submission without a session, or with an empty or white-space-only
    draft, issues no insert request and suspends nothing. *)
Theorem handleSendMessage_one_insert (w : World) :
  let w1 := step w Submit in
  (∀ s, session (app w) = Some s → trim (newMessage (app w)) ≠ [] →
     ∃ row, inserts (log w1) = inserts (log w) ++ [row]
          ∧ Row.user_id row = User.id (Session.user s)
          ∧ pending w1 =
              <[next_id w := OnInsert row handleSendMessage_settled]> (pending w)
          ∧ ∀ error w',
              inserts (log (run (handleSendMessage_settled error) w'))
              = inserts (log w'))
  ∧ (session (app w) = None ∨ white (newMessage (app w)) →
     inserts (log w1) = inserts (log w) ∧ pending w1 = pending w).
Proof.
  simpl. unfold handleSendMessage. split.
  - intros s Hs Hne. rewrite Hs.
    assert (falsy (trim (newMessage (app w))) = false) as ->.
    { apply not_true_is_false. rewrite falsy_trim, <- trim_nil. done. }
    simpl. eexists. split_and!; [| |reflexivity|].
    + rewrite !inserts_app. simpl. by rewrite app_nil_r.
    + reflexivity.
    + intros [e|] w'; simpl; [|done]. by rewrite inserts_app, app_nil_r.
  - intros H.
    assert (falsy (trim (newMessage (app w)))
            || bool_decide (session (app w) = None) = true) as Hg.
    { destruct H as [H|H].
      - rewrite (bool_decide_eq_true_2 _ H). apply orb_true_r.
      - apply falsy_trim in H. by rewrite H. }
    simpl. rewrite Hg. simpl. by rewrite inserts_app, app_nil_r.
Qed.

Lemma handleSendMessage_one_insert_witness :
  (∃ row, inserts (log (step drafting Submit)) = inserts (log drafting) ++ [row]
        ∧ Row.user_id row = js "u-alice"
        ∧ pending (step drafting Submit) =
            <[next_id drafting := OnInsert row handleSendMessage_settled]>
              (pending drafting)
        ∧ ∀ error w',
            inserts (log (run (handleSendMessage_settled error) w'))
            = inserts (log w'))
  ∧ inserts (log (step anonymous Submit)) = inserts (log anonymous)
  ∧ pending (step anonymous Submit) = pending anonymous.
Proof.
  split.
  - apply (proj1 (handleSendMessage_one_insert drafting) alice).
    + reflexivity.
    + vm_compute. discriminate.
  - apply (proj2 (handleSendMessage_one_insert anonymous)).
    left. reflexivity.
Defined.

(** ** Every suspended callback is one of the component's own *)

Lemma wf_same_pending w w' : pending w' = pending w → wf w → wf w'.
Proof. intros E H id t. rewrite E. apply H. Qed.

Lemma wf_spawn t w : known t → wf w → wf (spawn t w).
Proof.
  intros Ht H id t'. simpl. rewrite lookup_insert.
  case_decide; [by intros [= <-] | apply H].
Qed.

Lemma wf_settle id w : wf w → wf (settle id w).
Proof.
  intros H i t. simpl. rewrite lookup_delete. case_decide; [done | apply H].
Qed.

Lemma wf_with_app f w : wf w → wf (with_app f w).
Proof. by apply wf_same_pending. Qed.

Lemma wf_emit e w : wf w → wf (emit e w).
Proof. by apply wf_same_pending. Qed.

Lemma wf_with_document d w : wf w → wf (with_document d w).
Proof. by apply wf_same_pending. Qed.

Create HintDb wf.
#[local] Hint Resolve wf_spawn wf_settle wf_with_app wf_emit wf_with_document : wf.
#[local] Hint Constructors known : wf.

(** Splits on the task an event settles, using that it is a known one. *)
Ltac settle_cases Hwf :=
  match goal with
  | |- context [pending ?w !! ?id] =>
      let t := fresh "t" in
      let E := fresh "Et" in
      let K := fresh "K" in
      destruct (pending w !! id) as [t|] eqn:E;
      [pose proof (Hwf _ _ E) as K; destruct K|]
  end.

Lemma run_restoreScroll el d w :
  run (restoreScroll el d) w
  = write_scrollTop el (scrollHeight (box_of el w) - d) w.
Proof. reflexivity. Qed.

Lemma run_scrollToEnd w : run scrollToEnd w = emit (Called scrollIntoView) w.
Proof. reflexivity. Qed.

Lemma wf_write_scrollTop el v w : wf w → wf (write_scrollTop el v w).
Proof. apply wf_same_pending. by destruct el. Qed.

#[local] Hint Resolve wf_write_scrollTop : wf.

(** The continuations unfold once they are applied; the callbacks handed
    to timers and animation frames stay folded inside their tasks. *)
Arguments handleLogin_settled error /.
Arguments handleLogout_settled error /.
Arguments handleSendMessage_settled error /.
Arguments fetchMessages_settled offset r /.
Arguments effect_fetchMessages_settled r /.
Arguments getSession_then s /.
Arguments restoreScroll : simpl never.
Arguments scrollToEnd : simpl never.

Ltac unfold_callbacks :=
  unfold handleLogin, handleLogout, handleSendMessage, fetchMessages,
    effect_fetchMessages, toggleNotification, useEffect_messages,
    useEffect_messages_cleanup, useEffect_auth, on_postgres_changes, when in *.

Ltac run_cases :=
  unfold_callbacks;
  repeat (simpl in *; unfold when in *;
          rewrite ?run_restoreScroll, ?run_scrollToEnd in *; case_match).

Lemma wf_step w ev : wf w → wf (step w ev).
Proof.
  intros H. destruct ev; unfold step; try settle_cases H; try done;
    run_cases; subst; simpl; eauto 10 with wf.
Qed.

Lemma pending_mount :
  pending mount
  = <[1%nat := OnSelect (limit 50) effect_fetchMessages_settled]>
      (<[0%nat := OnSession getSession_then]> ∅).
Proof. reflexivity. Qed.

Lemma wf_mount : wf mount.
Proof.
  intros id t. rewrite pending_mount, !lookup_insert.
  repeat case_decide; try (intros [= <-]; constructor); done.
Qed.

Lemma wf_steps evs w : wf w → wf (steps evs w).
Proof.
  revert w. induction evs as [|ev evs IH]; intros w H; [done|].
  apply IH, wf_step, H.
Qed.

Lemma reachable_wf w : reachable w → wf w.
Proof. intros [evs ->]. apply wf_steps, wf_mount. Qed.

Lemma reachable_steps evs w : reachable w → reachable (steps evs w).
Proof.
  intros [evs0 ->]. exists (evs0 ++ evs). unfold steps. by rewrite foldl_app.
Qed.

Lemma steps_app evs1 evs2 w : steps (evs1 ++ evs2) w = steps evs2 (steps evs1 w).
Proof. apply foldl_app. Qed.

(** ** C3 *)

Lemma hasMore_step w ev :
  wf w → hasMore (app w) = false → hasMore (app (step w ev)) = false.
Proof.
  intros H Hm. destruct ev; unfold step; try settle_cases H; try done;
    run_cases; subst; simpl; try done; by destruct el.
Qed.

Lemma hasMore_steps evs w :
  wf w → hasMore (app w) = false → hasMore (app (steps evs w)) = false.
Proof.
  revert w. induction evs as [|ev evs IH]; intros w H Hm; [done|].
  apply IH; [by apply wf_step | by apply hasMore_step].
Qed.

Lemma load_more_hidden s : hasMore s = false → load_more (render s) = None.
Proof. unfold render. simpl. by intros ->. Qed.

(** C3. When a paginated fetch (the [range] query) settles with fewer
    rows than [MESSAGES_PER_PAGE], [hasMore] becomes false; it is false in
    every state that follows, whatever events arrive, and the "Load past
    messages" control is not rendered in any of them. *)
Theorem short_page_hides_load_more w id from to k data :
  reachable w →
  pending w !! id = Some (OnSelect (range from to) k) →
  Z.of_nat (length data) < MESSAGES_PER_PAGE →
  let w1 := step w (SelectSettled id (Success data)) in
  hasMore (app w1) = false
  ∧ ∀ evs, hasMore (app (steps evs w1)) = false
           ∧ load_more (render (app (steps evs w1))) = None.
Proof.
  intros Hr Hp Hlen w1.
  pose proof (reachable_wf _ Hr) as Hwf.
  assert (hasMore (app w1) = false) as H1.
  { subst w1. unfold step. rewrite Hp.
    pose proof (Hwf _ _ Hp) as K. inversion K; subst.
    apply Z.ltb_lt in Hlen.
    run_cases; subst; simpl; try done; try by destruct el. }
  split; [done|]. intros evs.
  assert (hasMore (app (steps evs w1)) = false) as H2.
  { apply hasMore_steps; [|done]. by apply wf_step. }
  split; [done | by apply load_more_hidden].
Qed.

Lemma short_page_hides_load_more_witness :
  let w1 := step (steps [ClickLoadMore] mount)
                 (SelectSettled 2 (Success [message_at "m1" 10])) in
  hasMore (app w1) = false
  ∧ ∀ evs, hasMore (app (steps evs w1)) = false
           ∧ load_more (render (app (steps evs w1))) = None.
Proof.
  apply (short_page_hides_load_more (steps [ClickLoadMore] mount) 2 0 49
           (fetchMessages_settled 0) [message_at "m1" 10]).
  - by exists [ClickLoadMore].
  - reflexivity.
  - reflexivity.
Defined.

(** ** C2 *)

Lemma descending_reverse l : descending l → ascending (reverse l).
Proof.
  unfold descending, ascending. induction 1 as [|x l Hl IH Hx].
  - constructor.
  - rewrite reverse_cons. apply StronglySorted_app_2; [|done|repeat constructor].
    intros a b Ha Hb. apply list_elem_of_singleton in Hb as ->.
    rewrite elem_of_reverse in Ha. rewrite Forall_forall in Hx. by apply Hx.
Qed.

Lemma ascending_app old new :
  ascending old → ascending new → no_newer_than old new → ascending (old ++ new).
Proof.
  unfold ascending, no_newer_than. intros Ho Hn H.
  apply StronglySorted_app_2; [|done..].
  intros a b Ha Hb. rewrite Forall_forall in H. specialize (H a Ha).
  rewrite Forall_forall in H. by apply H.
Qed.

Lemma no_newer_than_reverse_l old new :
  no_newer_than old new → no_newer_than (reverse old) new.
Proof. unfold no_newer_than. by rewrite Forall_reverse. Qed.

Lemma ascending_singleton m : ascending [m].
Proof. repeat constructor. Qed.

#[local] Hint Resolve descending_reverse ascending_app no_newer_than_reverse_l
  ascending_singleton : wf.

Lemma ascending_step w ev :
  wf w → timely w ev →
  ascending (messages (app w)) → ascending (messages (app (step w ev))).
Proof.
  intros H Ht Ha. destruct ev; unfold step, timely in *;
    try solve [run_cases; simpl; eauto with wf];
    try settle_cases H; try done;
    run_cases; subst; simpl; try done;
    try (by destruct el); try (destruct Ht as [? [?|?]]); try lia;
    try destruct Ht; eauto with wf.
Qed.

Lemma ascending_steps evs w :
  wf w → timely_trace evs w →
  ascending (messages (app w)) → ascending (messages (app (steps evs w))).
Proof.
  revert w. induction evs as [|ev evs IH]; intros w H Ht Ha; [done|].
  destruct Ht as [Ht Hts]. apply IH; [by apply wf_step|done|].
  by apply ascending_step.
Qed.

(** C2, as amended.  The displayed list is in non-decreasing [created_at]
    order after every sequence of events that arrive in time: each fetched
    page is in the descending order asked for, each realtime message is no
    older than the messages displayed when it arrives, and each page that
    is prepended holds nothing newer than the messages displayed when it
    settles. *)
Theorem messages_ascending_when_timely evs :
  timely_trace evs mount → ascending (messages (app (steps evs mount))).
Proof.
  intros H. apply ascending_steps; [apply wf_mount|done|constructor].
Qed.

Lemma messages_ascending_when_timely_witness :
  ascending (messages (app (steps in_time mount))).
Proof.
  apply (messages_ascending_when_timely in_time).
  simpl. unfold no_newer_than, descending.
  repeat split; repeat constructor; simpl; lia.
Defined.

Example in_time_messages :
  Message.created_at <$> messages (app (steps in_time mount)) = [10; 20; 30; 40].
Proof. reflexivity. Qed.

Example race_messages :
  Message.created_at <$> messages (app (steps race mount)) = [10; 20; 10; 20; 30].
Proof. reflexivity. Qed.

(** C2, as stated, fails: with every page in the order asked for and the
    realtime messages delivered in creation order, the trace [race] leaves
    the list out of order. *)
Lemma messages_unsorted_after_race :
  ¬ (∀ evs, Forall page_in_order evs → ascending (delivered evs) →
            ascending (messages (app (steps evs mount)))).
Proof.
  intros H. specialize (H race).
  assert (Forall page_in_order race) as Hp.
  { unfold race. repeat constructor; simpl; lia. }
  assert (ascending (delivered race)) as Hd by repeat constructor.
  specialize (H Hp Hd).
  apply (StronglySorted_fmap Message.created_at _ Z.le) in H; [|done].
  rewrite race_messages in H.
  apply StronglySorted_cons in H as [_ H].
  apply StronglySorted_cons in H as [H _].
  apply Forall_cons in H as [H _]. lia.
Qed.

(** ** C5 *)

(** C5, as amended.  When a load-more fetch with a non-zero offset settles
    with rows and the messages element is in the document, the distance
    from the bottom is captured then, after the fetch and before the list
    changes; the page is prepended and one animation-frame callback is
    scheduled, which assigns to [scrollTop] the [scrollHeight] it finds
    minus the captured distance.  The browser clamps that value to the
    scrollable range; when the captured distance lies between the
    [clientHeight] and the [scrollHeight] found, nothing is clamped and
    the distance from the bottom is the captured one again. *)
Theorem load_more_restores_distance w id offset to k data box :
  reachable w →
  pending w !! id = Some (OnSelect (range offset to) k) →
  offset ≠ 0 →
  document w !! "messages"%string = Some box →
  let d := distanceFromBottom box in
  let frame := Frame (restoreScroll (element "messages") d) in
  let w1 := step w (SelectSettled id (Success data)) in
  messages (app w1) = reverse data ++ messages (app w)
  ∧ document w1 = document w
  ∧ pending w1 = <[next_id w := frame]> (delete id (pending w))
  ∧ ∀ w2 box2,
      pending w2 !! next_id w = Some frame →
      document w2 !! "messages"%string = Some box2 →
      ∃ box3,
        document (step w2 (FrameFired (next_id w))) !! "messages"%string = Some box3
        ∧ scrollHeight box3 = scrollHeight box2
        ∧ clientHeight box3 = clientHeight box2
        ∧ scrollTop box3 = clamped box2 (scrollHeight box2 - d)
        ∧ (clientHeight box2 ≤ d ≤ scrollHeight box2 →
           scrollTop box3 = scrollHeight box2 - d
           ∧ distanceFromBottom box3 = d).
Proof.
  intros Hr Hp Hoff Hbox d frame w1.
  pose proof (reachable_wf _ Hr _ _ Hp) as K. inversion K; subst.
  apply Z.eqb_neq in Hoff.
  subst w1 frame d. unfold distanceFromBottom, step. rewrite Hp. simpl.
  rewrite Hbox. simpl.
  rewrite Hoff. unfold when.
  split_and!.
  - case_match; simpl; by rewrite ?Hbox.
  - by case_match.
  - case_match; simpl; by rewrite ?Hbox.
  - intros w2 box2 Hf Hd. unfold step. rewrite Hf, run_restoreScroll.
    unfold write_scrollTop, box_of. simpl. rewrite Hd. simpl.
    eexists. rewrite lookup_alter_eq, Hd. simpl.
    split_and!; [reflexivity|done|done|done|].
    unfold clamped. simpl. lia.
Qed.

Lemma load_more_restores_distance_witness :
  let w := scrolled_while_loading in
  let frame := Frame (restoreScroll (element "messages") 900) in
  let w1 := step w (SelectSettled 2 (Success [message_at "r1" 10])) in
  messages (app w1) = reverse [message_at "r1" 10] ++ messages (app w)
  ∧ document w1 = document w
  ∧ pending w1 = <[next_id w := frame]> (delete 2%nat (pending w))
  ∧ ∀ w2 box2,
      pending w2 !! next_id w = Some frame →
      document w2 !! "messages"%string = Some box2 →
      ∃ box3,
        document (step w2 (FrameFired (next_id w))) !! "messages"%string = Some box3
        ∧ scrollHeight box3 = scrollHeight box2
        ∧ clientHeight box3 = clientHeight box2
        ∧ scrollTop box3 = clamped box2 (scrollHeight box2 - 900)
        ∧ (clientHeight box2 ≤ 900 ≤ scrollHeight box2 →
           scrollTop box3 = scrollHeight box2 - 900
           ∧ distanceFromBottom box3 = 900).
Proof.
  apply (load_more_restores_distance _ 2 1 50 (fetchMessages_settled 1)
           [message_at "r1" 10]
           {| scrollHeight := 1000; clientHeight := 500; scrollTop := 100 |}).
  - eexists. reflexivity.
  - reflexivity.
  - lia.
  - reflexivity.
Defined.

(** On an empty last page with the viewport at the top the value assigned
    is negative and the browser stores 0: the distance from the bottom
    goes from 432 to 400. *)
Example empty_last_page_is_clamped :
  document (steps empty_last_page mount) !! "messages"%string
  = Some {| scrollHeight := 400; clientHeight := 400; scrollTop := 0 |}.
Proof. reflexivity. Qed.

Example load_more_trace_scrollTop :
  scrollTop <$> document (steps (load_more_trace
                                   {| scrollHeight := 1000; clientHeight := 500; scrollTop := 400 |}
                                   {| scrollHeight := 1000; clientHeight := 500; scrollTop := 100 |}
                                   1500) mount) !! "messages"%string
  = Some 600.
Proof. reflexivity. Qed.

(** C5, as stated, fails: the distance is not the one the viewport had
    before the fetch.  The user scrolls from 400 to 100 while the page
    loads; the callback restores the distance 900 read after the fetch,
    not the 600 of before. *)
Lemma distance_not_captured_before_fetch :
  ¬ (∀ box0 box1 height2,
       distanceFromBottom
         <$> document (steps (load_more_trace box0 box1 height2) mount)
               !! "messages"%string
       = Some (distanceFromBottom box0)).
Proof.
  intros H.
  specialize (H {| scrollHeight := 1000; clientHeight := 500; scrollTop := 400 |}
                {| scrollHeight := 1000; clientHeight := 500; scrollTop := 100 |} 1500).
  vm_compute in H. discriminate.
Qed.

(** ** C7 *)

Lemma session_step w ev :
  wf w → reports_session ev = false →
  session (app (step w ev)) = session (app w).
Proof.
  intros H Hev. destruct ev; try discriminate; unfold step;
    try settle_cases H; try done;
    run_cases; subst; simpl; try done; by destruct el.
Qed.

Lemma session_steps evs w :
  wf w → Forall (λ ev, reports_session ev = false) evs →
  session (app (steps evs w)) = session (app w).
Proof.
  revert w. induction evs as [|ev evs IH]; intros w H Hevs; [done|].
  inversion Hevs; subst. simpl.
  rewrite IH; [by apply session_step | by apply wf_step | done].
Qed.

Lemma submit_without_session w :
  session (app w) = None → step w Submit = emit (Called preventDefault) w.
Proof.
  intros Hs. unfold step, handleSendMessage. rewrite Hs. simpl.
  by rewrite orb_true_r.
Qed.

(** C7. With a session the Logout button is rendered, and a click on it
    makes [handleLogout] issue one [signOut] request and suspend on it,
    with the state unchanged.  When the auth client answers that request
    with success the logout is complete: the session state is null, no
    notification is shown, and the session stays null through every later
    event that is not a report of the auth client.  When it answers with
    an error the session is kept and "Failed to logout" is shown.  In
    every state whose session is null the input and the submit control
    are disabled and [handleSendMessage] returns without a request: no
    insert is issued, nothing is suspended, the state is unchanged. *)
Theorem logout_disables_submission w s :
  reachable w →
  session (app w) = Some s →
  let id := next_id w in
  let w1 := step w ClickLogout in
  (header_button (render (app w)) = LogoutButton
   ∧ pending w1 = <[id := OnAuth signOut handleLogout_settled]> (pending w)
   ∧ requests (log w1) = requests (log w) ++ [ReqAuth signOut]
   ∧ app w1 = app w)
  ∧ (let w2 := steps (auth_client_answers id signOut None) w1 in
     session (app w2) = None
     ∧ log w2 = log w1
     ∧ pending w2 = delete id (pending w1)
     ∧ ∀ evs, Forall (λ ev, reports_session ev = false) evs →
              session (app (steps evs w2)) = None)
  ∧ (∀ error,
       let w2 := steps (auth_client_answers id signOut (Some error)) w1 in
       session (app w2) = Some s
       ∧ log w2 = log w1 ++ [Toast "Failed to logout"])
  ∧ (∀ w', session (app w') = None →
       input_disabled (render (app w')) = true
       ∧ submit_disabled (render (app w')) = true
       ∧ inserts (log (step w' Submit)) = inserts (log w')
       ∧ requests (log (step w' Submit)) = requests (log w')
       ∧ pending (step w' Submit) = pending w'
       ∧ app (step w' Submit) = app w').
Proof.
  intros Hr Hs id w1. pose proof (reachable_wf _ Hr) as Hwf.
  assert (w1 = spawn (OnAuth signOut handleLogout_settled)
                 (emit (Requested (ReqAuth signOut)) w)) as Hw1.
  { subst w1. unfold step, render. simpl. by rewrite Hs. }
  assert (wf w1) as Hwf1 by (by apply wf_step).
  assert (pending w1 !! id = Some (OnAuth signOut handleLogout_settled)) as Hid.
  { rewrite Hw1. simpl. apply lookup_insert_eq. }
  split_and!.
  - unfold render. simpl. by rewrite Hs.
  - by rewrite Hw1.
  - rewrite Hw1. simpl. by rewrite requests_app.
  - by rewrite Hw1.
  - assert (steps (auth_client_answers id signOut None) w1
            = settle id (with_app (set_session None) w1)) as Hw2.
    { unfold steps, auth_client_answers. cbn [foldl].
      unfold step at 1. simpl. by rewrite Hid. }
    rewrite Hw2. split_and!; try done.
    intros evs Hevs. rewrite session_steps; [done| |done].
    rewrite <- Hw2. by apply wf_steps.
  - intros error. unfold steps, auth_client_answers. cbn [foldl].
    unfold step. rewrite Hid. simpl. by rewrite Hw1.
  - intros w' Hs'. rewrite (submit_without_session _ Hs').
    unfold render. simpl. rewrite Hs'. simpl.
    rewrite inserts_app, requests_app. simpl. by rewrite !app_nil_r.
Qed.

Lemma logout_disables_submission_witness :
  let id := next_id drafting in
  let w1 := step drafting ClickLogout in
  (header_button (render (app drafting)) = LogoutButton
   ∧ pending w1 = <[id := OnAuth signOut handleLogout_settled]> (pending drafting)
   ∧ requests (log w1) = requests (log drafting) ++ [ReqAuth signOut]
   ∧ app w1 = app drafting)
  ∧ (let w2 := steps (auth_client_answers id signOut None) w1 in
     session (app w2) = None
     ∧ log w2 = log w1
     ∧ pending w2 = delete id (pending w1)
     ∧ ∀ evs, Forall (λ ev, reports_session ev = false) evs →
              session (app (steps evs w2)) = None)
  ∧ (∀ error,
       let w2 := steps (auth_client_answers id signOut (Some error)) w1 in
       session (app w2) = Some alice
       ∧ log w2 = log w1 ++ [Toast "Failed to logout"])
  ∧ (∀ w', session (app w') = None →
       input_disabled (render (app w')) = true
       ∧ submit_disabled (render (app w')) = true
       ∧ inserts (log (step w' Submit)) = inserts (log w')
       ∧ requests (log (step w' Submit)) = requests (log w')
       ∧ pending (step w' Submit) = pending w'
       ∧ app (step w' Submit) = app w').
Proof.
  apply (logout_disables_submission drafting alice).
  - by exists [AuthStateChanged (Some alice); Change (js "hi")].
  - reflexivity.
Defined.

Example logout_of_drafting :
  let answered :=
    steps (ClickLogout :: auth_client_answers 2 signOut None) drafting in
  session (app drafting) = Some alice
  ∧ session (app answered) = None
  ∧ requests (log answered)
    = [ReqGetSession; ReqSelect (limit 50); ReqAuth signOut]
  ∧ submit_disabled (render (app answered)) = true.
Proof. by split_and!. Qed.

(** ** C8 *)

(** C8. When a backend call (login, logout, the first fetch, a paginated
    fetch, an insert) settles with an error, its call site shows one
    notification and nothing else is observable: no request is issued
    again, no callback, timer or frame is scheduled, nothing else is
    logged, the document is untouched, and the state is unchanged but for
    [isLoading], which the paginated fetch clears.  The world goes on
    taking events. *)
Theorem backend_failure_only_notifies w id t pe ae ev msg :
  reachable w →
  pending w !! id = Some t →
  failure_of id t pe ae = Some (ev, msg) →
  let w' := step w ev in
  log w' = log w ++ [Toast msg]
  ∧ pending w' = delete id (pending w)
  ∧ next_id w' = next_id w
  ∧ document w' = document w
  ∧ app w' = state_after_failure t (app w)
  ∧ ∀ evs, reachable (steps evs w').
Proof.
  intros Hr Hp Hf w'.
  pose proof (reachable_wf _ Hr _ _ Hp) as K.
  assert (reachable w') as Hr'.
  { destruct Hr as [evs0 ->]. exists (evs0 ++ [ev]). subst w'.
    by rewrite steps_app. }
  subst w'.
  destruct K; simplify_eq/=; unfold step in *;
    rewrite Hp in *; simpl; (split_and!; [try done..|]);
    try (by case_match); try (by destruct (app w));
    intros evs; by apply reachable_steps.
Qed.

Lemma backend_failure_only_notifies_witness :
  let w' := step mount (SelectSettled 1 (Failure {| postgrest_message := js "timeout" |})) in
  log w' = log mount ++ [Toast "Failed to fetch messages"]
  ∧ pending w' = delete 1%nat (pending mount)
  ∧ next_id w' = next_id mount
  ∧ document w' = document mount
  ∧ app w' = app mount
  ∧ ∀ evs, reachable (steps evs w').
Proof.
  apply (backend_failure_only_notifies mount 1
           (OnSelect (limit 50) effect_fetchMessages_settled)
           {| postgrest_message := js "timeout" |}
           {| auth_message := [] |}).
  - by exists [].
  - reflexivity.
  - reflexivity.
Defined.

(** ** C9 *)

(** C9. When the insert of a submission settles with an error the draft
    and the displayed list are as they were; when it settles without one
    the draft becomes the empty string and the list is as it was. *)
Theorem failed_insert_keeps_draft w id row k :
  reachable w →
  pending w !! id = Some (OnInsert row k) →
  (∀ error,
     let w' := step w (InsertSettled id (Some error)) in
     newMessage (app w') = newMessage (app w)
     ∧ messages (app w') = messages (app w))
  ∧ (let w' := step w (InsertSettled id None) in
     newMessage (app w') = []
     ∧ messages (app w') = messages (app w)).
Proof.
  intros Hr Hp. pose proof (reachable_wf _ Hr _ _ Hp) as K.
  inversion K; subst. unfold step. rewrite Hp. by simpl.
Qed.

Lemma failed_insert_keeps_draft_witness :
  (∀ error,
     let w' := step (step drafting Submit) (InsertSettled 2 (Some error)) in
     newMessage (app w') = js "hi"
     ∧ messages (app w') = [])
  ∧ (let w' := step (step drafting Submit) (InsertSettled 2 None) in
     newMessage (app w') = []
     ∧ messages (app w') = []).
Proof.
  apply (failed_insert_keeps_draft (step drafting Submit) 2
           {| Row.content := js "hi"; Row.user_id := js "u-alice";
              Row.user_name := Some (js "alice"); Row.user_avatar := None |}
           handleSendMessage_settled).
  - by exists [AuthStateChanged (Some alice); Change (js "hi"); Submit].
  - reflexivity.
Defined.

(** ** C4 *)

Section sweep.
Import Typing.
Implicit Types (m : gmap jsstring TypingUser.t) (uid : jsstring).

Lemma drop_all_Some now l m uid d :
  foldl (drop_expired now) m l !! uid = Some d → m !! uid = Some d.
Proof.
  revert m. induction l as [|[j dj] l IH]; intros m; simpl; [done|].
  intros H. apply IH in H. case_match; [|done].
  rewrite lookup_delete in H. by case_decide.
Qed.

Lemma drop_all_expired now l m uid d :
  (uid, d) ∈ l → now - TypingUser.timestamp d > TYPING_TIMEOUT →
  foldl (drop_expired now) m l !! uid = None.
Proof.
  revert m. induction l as [|[j dj] l IH]; intros m Hin Hd.
  - by apply elem_of_nil in Hin.
  - apply elem_of_cons in Hin as [[= <- <-]|Hin]; [|by apply IH].
    simpl. apply Z.gtb_gt in Hd. rewrite Hd.
    destruct (foldl (drop_expired now) (delete uid m) l !! uid) as [d'|] eqn:E; [|done].
    apply drop_all_Some in E. by rewrite lookup_delete_eq in E.
Qed.

(** The sweep only removes entries. *)
Lemma sweep_Some now m uid d : sweep now m !! uid = Some d → m !! uid = Some d.
Proof. apply drop_all_Some. Qed.

(** The sweep removes every entry older than the timeout. *)
Lemma sweep_expired now m uid d :
  m !! uid = Some d → now - TypingUser.timestamp d > TYPING_TIMEOUT →
  sweep now m !! uid = None.
Proof.
  intros Hm. apply drop_all_expired. by apply elem_of_map_to_list.
Qed.

(** The sweep keeps every entry within the timeout. *)
Lemma sweep_fresh now m uid d :
  m !! uid = Some d → now - TypingUser.timestamp d ≤ TYPING_TIMEOUT →
  sweep now m !! uid = Some d.
Proof.
  intros Hm Hd. unfold sweep.
  assert (∀ l acc, acc !! uid = Some d →
            (∀ d', (uid, d') ∈ l → d' = d) →
            foldl (drop_expired now) acc l !! uid = Some d) as Hgen.
  { induction l as [|[j dj] l IH]; intros acc Hacc Hl; simpl; [done|].
    apply IH; [|intros d' Hd'; apply Hl; by right].
    case_match; [|done]. rewrite lookup_delete_ne; [done|].
    intros ->. specialize (Hl dj ltac:(left)). subst dj.
    apply Z.gtb_gt in H. lia. }
  apply Hgen; [done|]. intros d' Hd'. apply elem_of_map_to_list in Hd'. congruence.
Qed.

Lemma typing_run_app tr1 tr2 :
  typing_run (tr1 ++ tr2) = foldl typing_step (typing_run tr1) tr2.
Proof. apply foldl_app. Qed.


End sweep.

Section typing_effect.
Import TypingEffect.
Implicit Types (st : state) (uid : jsstring) (T now : Z).











End typing_effect.



(** The bound is reached when the entry is recorded on a period of the
    interval. *)
Example bob_types_until_the_bound :
  TypingUser.timestamp
    <$> TypingEffect.typingUsers_at 4999 bob_types !! js "u-bob" = Some 1000
  ∧ TypingEffect.typingUsers_at 5000 bob_types !! js "u-bob" = None.
Proof. split; vm_compute; reflexivity. Qed.

(** A change of session restarts the interval: with a new session object
    at 4500 the next sweep is at 5500 and the entry is still there at
    5000. *)
Example entry_survives_a_restart :
  TypingUser.timestamp
    <$> TypingEffect.typingUsers_at 5000
          (bob_types ++ [(4500, TypingEffect.SetSession (Some alice))])
        !! js "u-bob"
  = Some 1000.
Proof. vm_compute. reflexivity. Qed.


(** ** C6 *)

(** C6. Whatever the flag and the storage were, after the preference is
    set to [v] the storage holds the text of [v] under
    ["isNotificationEnabled"], and the value read from storage at the next
    start is [v]; so a toggle followed by a reload leaves the toggled
    value. *)
Theorem notification_preference_roundtrip (v : bool)
    (st : bool * gmap string string) :
  Preference.getItem "isNotificationEnabled"
    (Preference.setNotificationEnabled v st).2 = Some (Preference.toString v)
  ∧ Preference.initial_isNotificationEnabled
      (Preference.setNotificationEnabled v st).2 = v
  ∧ Preference.reload (Preference.setNotificationEnabled v st)
    = Preference.setNotificationEnabled v st
  ∧ (Preference.reload (Preference.toggle st)).1 = negb st.1.
Proof.
  assert (Preference.initial_isNotificationEnabled
            (Preference.setNotificationEnabled v st).2 = v) as Hread.
  { unfold Preference.initial_isNotificationEnabled, Preference.getItem,
      Preference.setNotificationEnabled, Preference.setItem. simpl.
    rewrite lookup_insert_eq. by destruct v. }
  split_and!.
  - apply lookup_insert_eq.
  - done.
  - unfold Preference.reload. by rewrite Hread.
  - unfold Preference.reload, Preference.toggle. simpl.
    unfold Preference.initial_isNotificationEnabled, Preference.getItem,
      Preference.setNotificationEnabled, Preference.setItem. simpl.
    rewrite lookup_insert_eq. by destruct (st.1).
Qed.

Example preference_survives_reload :
  (Preference.reload (Preference.toggle (false, ∅))).1 = true
  ∧ (Preference.reload (Preference.toggle (Preference.toggle (false, ∅)))).1 = false
  ∧ Preference.initial_isNotificationEnabled ∅ = false.
Proof. by split_and!. Qed.

(** * Further properties of the component *)

(** ** Submissions *)

Lemma step_Submit w :
  step w Submit
  = match session (app w) with
    | Some s =>
        if falsy (trim (newMessage (app w))) then emit (Called preventDefault) w
        else spawn (OnInsert (insert_row (newMessage (app w)) s)
                      handleSendMessage_settled)
               (emit (Requested (ReqInsert (insert_row (newMessage (app w)) s)))
                  (emit (Called preventDefault) w))
    | None => emit (Called preventDefault) w
    end.
Proof.
  unfold step, handleSendMessage. destruct (session (app w)) as [s|]; simpl.
  - rewrite orb_false_r. by destruct (falsy _).
  - by rewrite orb_true_r.
Qed.

Lemma app_step_Submit w : app (step w Submit) = app w.
Proof. rewrite step_Submit. by repeat case_match. Qed.

Lemma inserts_step_Submit w s :
  session (app w) = Some s → ¬ white (newMessage (app w)) →
  inserts (log (step w Submit))
  = inserts (log w) ++ [insert_row (newMessage (app w)) s].
Proof.
  intros Hs Hw. rewrite step_Submit, Hs.
  assert (falsy (trim (newMessage (app w))) = false) as ->.
  { apply not_true_is_false. by rewrite falsy_trim. }
  simpl. rewrite !inserts_app. simpl. by rewrite app_nil_r.
Qed.

Lemma inserts_step_other w ev :
  wf w → ev ≠ Submit → inserts (log (step w ev)) = inserts (log w).
Proof.
  intros H Hev. destruct ev; try done; unfold step;
    try settle_cases H; try done;
    run_cases; subst; simpl; rewrite ?inserts_app; simpl;
    rewrite ?app_nil_r; try done; by destruct el.
Qed.

Lemma inserts_not_blank_steps evs w :
  wf w →
  Forall (λ row, ¬ white (Row.content row)) (inserts (log w)) →
  Forall (λ row, ¬ white (Row.content row)) (inserts (log (steps evs w))).
Proof.
  revert w. induction evs as [|ev evs IH]; intros w H Hall; [done|].
  simpl. apply IH; [by apply wf_step|].
  assert (ev = Submit ∨ ev ≠ Submit) as [->|Hev]
    by (destruct ev; (by left) || (by right)).
  - rewrite step_Submit.
    destruct (session (app w)) as [s|];
      [destruct (falsy (trim (newMessage (app w)))) eqn:E|];
      simpl; rewrite !inserts_app; simpl; rewrite ?app_nil_r; try done.
    apply Forall_app. split; [done|]. constructor; [|done]. simpl.
    rewrite <- falsy_trim. by rewrite E.
  - by rewrite inserts_step_other.
Qed.

(** X1. No insert request the component ever issues carries a content
    that is empty or made of white space only. *)
Theorem inserted_content_never_blank w :
  reachable w →
  Forall (λ row, ¬ white (Row.content row) ∧ trim (Row.content row) ≠ [])
         (inserts (log w)).
Proof.
  intros [evs ->].
  eapply Forall_impl; [apply inserts_not_blank_steps; [apply wf_mount|]|].
  - by vm_compute.
  - intros row Hrow. split; [done|]. by rewrite trim_nil.
Qed.

Lemma inserted_content_never_blank_witness :
  Forall (λ row, ¬ white (Row.content row) ∧ trim (Row.content row) ≠ [])
         (inserts (log (step drafting Submit))).
Proof.
  apply (inserted_content_never_blank (step drafting Submit)).
  by exists [AuthStateChanged (Some alice); Change (js "hi"); Submit].
Defined.

Lemma inserts_replicate_Submit n w s :
  session (app w) = Some s → ¬ white (newMessage (app w)) →
  inserts (log (steps (replicate n Submit) w))
  = inserts (log w) ++ replicate n (insert_row (newMessage (app w)) s)
  ∧ app (steps (replicate n Submit) w) = app w.
Proof.
  revert w. induction n as [|n IH]; intros w Hs Hw.
  - simpl. by rewrite app_nil_r.
  - change (steps (replicate (S n) Submit) w)
      with (steps (replicate n Submit) (step w Submit)).
    pose proof (app_step_Submit w) as Ha.
    destruct (IH (step w Submit)) as [IH1 IH2]; [by rewrite Ha..|].
    rewrite IH1, IH2, Ha, (inserts_step_Submit _ s) by done.
    cbn [replicate]. by rewrite <- app_assoc.
Qed.

(** X2. The draft is sent as typed, white space around it included, and
    nothing holds a submission back while an insert is in flight: [n]
    submissions in a row issue [n] insert requests with the same row, and
    leave the draft and the rest of the state as they were. *)
Theorem resubmission_repeats_the_insert n w s :
  session (app w) = Some s → ¬ white (newMessage (app w)) →
  let w' := steps (replicate n Submit) w in
  inserts (log w') = inserts (log w) ++ replicate n (insert_row (newMessage (app w)) s)
  ∧ Row.content (insert_row (newMessage (app w)) s) = newMessage (app w)
  ∧ app w' = app w.
Proof.
  intros Hs Hw. destruct (inserts_replicate_Submit n w s Hs Hw) as [H1 H2].
  by split_and!.
Qed.

Lemma resubmission_repeats_the_insert_witness :
  let w' := steps (replicate 2 Submit) drafting in
  inserts (log w')
  = inserts (log drafting) ++ replicate 2 (insert_row (newMessage (app drafting)) alice)
  ∧ Row.content (insert_row (newMessage (app drafting)) alice) = newMessage (app drafting)
  ∧ app w' = app drafting.
Proof.
  apply (resubmission_repeats_the_insert 2 drafting alice).
  - reflexivity.
  - intros H%trim_nil. vm_compute in H. discriminate.
Defined.

(** X3. Every template passes the guard of [handleSendMessage]: with a
    session, clicking a template and submitting issues one insert whose
    content is the template, whatever the draft was; without a session the
    templates are not rendered and the click changes nothing. *)
Theorem template_then_submit w index template :
  TEMPLATE_MESSAGES !! index = Some template →
  (∀ s, session (app w) = Some s →
        inserts (log (steps [ClickTemplate index; Submit] w))
        = inserts (log w) ++ [insert_row (js template) s])
  ∧ (session (app w) = None → step w (ClickTemplate index) = w).
Proof.
  intros Ht. split.
  - intros s Hs.
    assert (step w (ClickTemplate index)
            = with_app (set_newMessage (js template)) w) as Hc.
    { unfold step, render. simpl. rewrite Hs. simpl. by rewrite Ht. }
    unfold steps. cbn [foldl]. rewrite Hc.
    rewrite (inserts_step_Submit _ s); [done|done|].
    simpl. rewrite <- trim_nil.
    do 5 (destruct index as [|index]; [injection Ht as <-; by vm_compute|]).
    done.
  - intros Hs. unfold step, render. simpl. by rewrite Hs.
Qed.

Lemma template_then_submit_witness :
  (∀ s, session (app drafting) = Some s →
        inserts (log (steps [ClickTemplate 3; Submit] drafting))
        = inserts (log drafting) ++ [insert_row (js "That's interesting!") s])
  ∧ (session (app drafting) = None → step drafting (ClickTemplate 3) = drafting).
Proof.
  apply (template_then_submit drafting 3 "That's interesting!"). reflexivity.
Defined.

(** ** Row-level security *)

(** X4. The row [handleSendMessage] sends for a session passes the insert
    policy of the migration exactly when the backend sees the request as
    coming from an authenticated caller whose [auth.uid()] is the session
    user's id; the anonymous role, a null uid and any other uid are
    refused. *)
Theorem sent_row_meets_insert_policy w s r auth_uid :
  session (app w) = Some s → ¬ white (newMessage (app w)) →
  ∃ row, inserts (log (step w Submit)) = inserts (log w) ++ [row]
       ∧ (Policy.can_insert r auth_uid row = true
          ↔ r = Policy.authenticated ∧ auth_uid = Some (User.id (Session.user s))).
Proof.
  intros Hs Hw. exists (insert_row (newMessage (app w)) s).
  split; [by apply inserts_step_Submit|].
  destruct r; simpl.
  - split; [done | by intros [? _]].
  - rewrite bool_decide_eq_true. simpl. split; [by intros -> | by intros [_ ->]].
Qed.

Lemma sent_row_meets_insert_policy_witness :
  ∃ row, inserts (log (step drafting Submit)) = inserts (log drafting) ++ [row]
       ∧ (Policy.can_insert Policy.authenticated (Some (js "u-alice")) row = true
          ↔ Policy.authenticated = Policy.authenticated
            ∧ Some (js "u-alice") = Some (User.id (Session.user alice))).
Proof.
  apply (sent_row_meets_insert_policy drafting alice).
  - reflexivity.
  - intros H%trim_nil. vm_compute in H. discriminate.
Defined.

(** ** Session and header buttons *)

(** X5. The session state mirrors the auth client: an auth state change
    sets it to what is reported, and no other event (a click, a
    submission, a settlement of login, logout, fetch or insert, a realtime
    message, a timer) changes it. *)
Theorem session_changes_only_on_report w evs :
  reachable w →
  Forall (λ ev, reports_session ev = false) evs →
  session (app (steps evs w)) = session (app w)
  ∧ ∀ s, session (app (step (steps evs w) (AuthStateChanged s))) = s.
Proof.
  intros Hr Hevs. split; [|done].
  apply session_steps; [by apply reachable_wf | done].
Qed.

Lemma session_changes_only_on_report_witness :
  session (app (steps [ClickLogout; Submit; ClickNotification] drafting))
  = session (app drafting)
  ∧ ∀ s, session (app (step (steps [ClickLogout; Submit; ClickNotification] drafting)
                            (AuthStateChanged s))) = s.
Proof.
  apply (session_changes_only_on_report drafting).
  - by exists [AuthStateChanged (Some alice); Change (js "hi")].
  - by repeat constructor.
Defined.

(** X6. Exactly one of the two header buttons is live in each state: it
    issues one auth request ([signInWithOAuth] with GitHub when there is
    no session, [signOut] when there is one) and changes no state; and
    when an auth request settles, with or without an error, the state is
    still unchanged. *)
Theorem header_button_issues_one_auth_request w :
  reachable w →
  (session (app w) = None →
     step w ClickLogout = w
     ∧ requests (log (step w ClickLogin))
       = requests (log w) ++ [ReqAuth (signInWithOAuth "github")]
     ∧ app (step w ClickLogin) = app w)
  ∧ (is_Some (session (app w)) →
     step w ClickLogin = w
     ∧ requests (log (step w ClickLogout)) = requests (log w) ++ [ReqAuth signOut]
     ∧ app (step w ClickLogout) = app w)
  ∧ (∀ id c k error,
       pending w !! id = Some (OnAuth c k) →
       app (step w (AuthSettled id error)) = app w).
Proof.
  intros Hr. split_and!.
  - intros Hs. unfold step, render. simpl. rewrite Hs. simpl.
    by rewrite requests_app.
  - intros [s Hs]. unfold step, render. simpl. rewrite Hs. simpl.
    by rewrite requests_app.
  - intros id c k error Hp.
    pose proof (reachable_wf _ Hr _ _ Hp) as K. inversion K; subst;
      unfold step; rewrite Hp; by destruct error.
Qed.

Lemma header_button_issues_one_auth_request_witness :
  (session (app drafting) = None →
     step drafting ClickLogout = drafting
     ∧ requests (log (step drafting ClickLogin))
       = requests (log drafting) ++ [ReqAuth (signInWithOAuth "github")]
     ∧ app (step drafting ClickLogin) = app drafting)
  ∧ (is_Some (session (app drafting)) →
     step drafting ClickLogin = drafting
     ∧ requests (log (step drafting ClickLogout))
       = requests (log drafting) ++ [ReqAuth signOut]
     ∧ app (step drafting ClickLogout) = app drafting)
  ∧ (∀ id c k error,
       pending drafting !! id = Some (OnAuth c k) →
       app (step drafting (AuthSettled id error)) = app drafting).
Proof.
  apply (header_button_issues_one_auth_request drafting).
  by exists [AuthStateChanged (Some alice); Change (js "hi")].
Defined.

(** ** The list and the load-more control *)

(** X7. [hasMore] is cleared by nothing but a paginated fetch that settles
    with fewer rows than a page: the first fetch, however short its page,
    a failed fetch and every other event leave the control rendered. *)
Theorem hasMore_cleared_only_by_short_page w ev :
  reachable w →
  hasMore (app w) = true →
  hasMore (app (step w ev)) = false →
  ∃ id from to k data,
    ev = SelectSettled id (Success data)
    ∧ pending w !! id = Some (OnSelect (range from to) k)
    ∧ Z.of_nat (length data) < MESSAGES_PER_PAGE.
Proof.
  intros Hr Hm Hm'. pose proof (reachable_wf _ Hr) as H.
  destruct ev; revert Hm'; unfold step; try settle_cases H; intros Hm';
    run_cases; subst; simpl in *; try congruence;
    try (destruct el; simpl in *; congruence);
    eexists _, _, _, _, _; (split_and!; [done|done|]);
    by apply Z.ltb_lt.
Qed.

Lemma hasMore_cleared_only_by_short_page_witness :
  ∃ id from to k data,
    SelectSettled 2 (Success [message_at "m1" 10]) = SelectSettled id (Success data)
    ∧ pending (steps [ClickLoadMore] mount) !! id = Some (OnSelect (range from to) k)
    ∧ Z.of_nat (length data) < MESSAGES_PER_PAGE.
Proof.
  apply (hasMore_cleared_only_by_short_page (steps [ClickLoadMore] mount)
           (SelectSettled 2 (Success [message_at "m1" 10]))).
  - by exists [ClickLoadMore].
  - reflexivity.
  - reflexivity.
Defined.

(** X8. The displayed list changes in three ways only: a realtime message
    is appended; a page of a load-more with a non-zero offset is reversed
    and prepended; a page of the first fetch, or of a load-more with
    offset 0, is reversed and replaces the list.  Every other event,
    failed fetches included, leaves the list as it is. *)
Theorem messages_change_only_by_page_or_insert w ev :
  reachable w →
  let old := messages (app w) in
  let new := messages (app (step w ev)) in
  new = old
  ∨ (∃ m, ev = PostgresChanges m ∧ new = old ++ [m])
  ∨ (∃ id q k data,
       ev = SelectSettled id (Success data)
       ∧ pending w !! id = Some (OnSelect q k)
       ∧ new = match q with
               | limit _ => reverse data
               | range from _ =>
                   if from =? 0 then reverse data else reverse data ++ old
               end).
Proof.
  intros Hr old new. subst old new. pose proof (reachable_wf _ Hr) as H.
  destruct ev; unfold step; try settle_cases H;
    try (by left);
    try (right; left; eexists; split; [done|]; by run_cases);
    try (run_cases; subst; simpl; by left);
    try (destruct el; by left).
  all: destruct r as [data|e]; [|run_cases; by left].
  all: right; right; eexists _, _, _, _; (split_and!; [done|done|]).
  all: run_cases; subst; simpl; try done; lia.
Qed.

Lemma messages_change_only_by_page_or_insert_witness :
  let ev := SelectSettled 2 (Success [message_at "r1" 10]) in
  let old := messages (app scrolled_while_loading) in
  let new := messages (app (step scrolled_while_loading ev)) in
  new = old
  ∨ (∃ m, ev = PostgresChanges m ∧ new = old ++ [m])
  ∨ (∃ id q k data,
       ev = SelectSettled id (Success data)
       ∧ pending scrolled_while_loading !! id = Some (OnSelect q k)
       ∧ new = match q with
               | limit _ => reverse data
               | range from _ =>
                   if from =? 0 then reverse data else reverse data ++ old
               end).
Proof.
  apply (messages_change_only_by_page_or_insert scrolled_while_loading).
  eexists. reflexivity.
Defined.

(** X9. Toggling the notification flag runs the second effect again: the
    channel is removed, a new [limit(50)] fetch is issued and the channel
    is subscribed again, with the list and [hasMore] untouched.  When that
    fetch settles with rows they replace the list, older pages that had
    been loaded included, and [hasMore] stays what it was; two toggles
    restore the flag. *)
Theorem notification_toggle_refetches w :
  let w1 := step w ClickNotification in
  isNotificationEnabled (app w1) = negb (isNotificationEnabled (app w))
  ∧ log w1
    = log w ++ [Called (removeChannel "messages");
                Requested (ReqSelect (limit 50));
                Called (channel_subscribe "messages")]
  ∧ messages (app w1) = messages (app w)
  ∧ hasMore (app w1) = hasMore (app w)
  ∧ (∀ data,
       let w2 := step w1 (SelectSettled (next_id w) (Success data)) in
       messages (app w2) = reverse data ∧ hasMore (app w2) = hasMore (app w))
  ∧ isNotificationEnabled (app (step w1 ClickNotification))
    = isNotificationEnabled (app w).
Proof.
  simpl. split_and!; try done.
  - by rewrite <- !app_assoc.
  - intros data. unfold step. simpl. by rewrite lookup_insert_eq.
  - apply negb_involutive.
Qed.

(** ** One paginated fetch at a time *)

Lemma one_load_insert_other l p n t :
  one_load l p n → paginated t = false → one_load l (<[n := t]> p) (S n).
Proof.
  intros [Hlt Hl] Ht. split.
  - intros id t'. rewrite lookup_insert. case_decide; [intros _; lia|].
    intros Hp. apply Hlt in Hp. lia.
  - destruct l.
    + destruct Hl as (id & t0 & Hp & Hpag & Huniq).
      assert (id ≠ n) as Hne by (apply Hlt in Hp; lia).
      exists id, t0. split_and!; [by rewrite lookup_insert_ne|done|].
      intros id' t'. rewrite lookup_insert. case_decide; [|apply Huniq].
      intros [= <-]. congruence.
    + intros id t'. rewrite lookup_insert. case_decide; [by intros [= <-]|apply Hl].
Qed.

Lemma one_load_delete_other l p n id t :
  one_load l p n → p !! id = Some t → paginated t = false →
  one_load l (delete id p) n.
Proof.
  intros [Hlt Hl] Hp Ht. split.
  - intros id' t'. rewrite lookup_delete. case_decide; [done|apply Hlt].
  - destruct l.
    + destruct Hl as (id0 & t0 & Hp0 & Hpag & Huniq).
      assert (id0 ≠ id) as Hne by (intros ->; congruence).
      exists id0, t0. split_and!; [by rewrite lookup_delete_ne|done|].
      intros id' t'. rewrite lookup_delete. case_decide; [done|apply Huniq].
    + intros id' t'. rewrite lookup_delete. case_decide; [done|apply Hl].
Qed.

Lemma one_load_delete_page l p n id t :
  one_load l p n → p !! id = Some t → paginated t = true →
  one_load false (delete id p) n.
Proof.
  intros [Hlt Hl] Hp Ht. split.
  - intros id' t'. rewrite lookup_delete. case_decide; [done|apply Hlt].
  - destruct l.
    + destruct Hl as (id0 & t0 & Hp0 & Hpag & Huniq).
      intros id' t'. rewrite lookup_delete. case_decide; [done|].
      intros Hp'. apply not_true_is_false. intros Hpag'.
      pose proof (Huniq _ _ Hp' Hpag'). pose proof (Huniq _ _ Hp Ht). congruence.
    + apply Hl in Hp. congruence.
Qed.

Lemma one_load_insert_page p n t :
  one_load false p n → paginated t = true → one_load true (<[n := t]> p) (S n).
Proof.
  intros [Hlt Hl] Ht. split.
  - intros id t'. rewrite lookup_insert. case_decide; [intros _; lia|].
    intros Hp. apply Hlt in Hp. lia.
  - exists n, t. split_and!; [apply lookup_insert_eq|done|].
    intros id' t'. rewrite lookup_insert. case_decide; [done|].
    intros Hp Hpag. apply Hl in Hp. congruence.
Qed.

#[local] Hint Resolve one_load_insert_other one_load_delete_other
  one_load_delete_page one_load_insert_page : wf.

Lemma one_load_step w ev :
  wf w →
  one_load (isLoading (app w)) (pending w) (next_id w) →
  one_load (isLoading (app (step w ev))) (pending (step w ev)) (next_id (step w ev)).
Proof.
  intros H Hinv. destruct ev; unfold step; try settle_cases H; try done;
    run_cases; subst; simpl; try (by simplify_eq/=);
    try match goal with
        | E : isLoading (app _) = _ |- _ => rewrite ?E in Hinv; rewrite ?E
        end;
    try (destruct el; simpl); eauto 6 with wf.
Qed.

Lemma one_load_reachable w :
  reachable w → one_load (isLoading (app w)) (pending w) (next_id w).
Proof.
  intros [evs ->]. generalize wf_mount.
  assert (one_load (isLoading (app mount)) (pending mount) (next_id mount)) as H0.
  { rewrite pending_mount. split.
    - intros id t. rewrite !lookup_insert. simpl.
      repeat case_decide; try done; intros _; lia.
    - simpl. intros id t. rewrite !lookup_insert.
      repeat case_decide; try done; by intros [= <-]. }
  revert H0. generalize mount.
  induction evs as [|ev evs IH]; intros w Hinv Hwf; [done|].
  simpl. apply IH; [by apply one_load_step | by apply wf_step].
Qed.

(** X10. At most one paginated fetch is in flight, and [isLoading] is true
    exactly while one is: the control is disabled from the click until
    the fetch settles, a click in between does nothing, and the fetch
    that settles, with rows or with an error, enables the control
    again. *)
Theorem one_paginated_fetch_in_flight w :
  reachable w →
  (isLoading (app w) = true ↔ ∃ id t, pending w !! id = Some t ∧ paginated t = true)
  ∧ (∀ id1 id2 t1 t2,
       pending w !! id1 = Some t1 → paginated t1 = true →
       pending w !! id2 = Some t2 → paginated t2 = true → id1 = id2)
  ∧ (isLoading (app w) = true → step w ClickLoadMore = w)
  ∧ (∀ id t r, pending w !! id = Some t → paginated t = true →
               isLoading (app (step w (SelectSettled id r))) = false).
Proof.
  intros Hr. destruct (one_load_reachable w Hr) as [_ Hl].
  pose proof (reachable_wf _ Hr) as Hwf.
  split_and!.
  - destruct (isLoading (app w)).
    + destruct Hl as (id & t & Hp & Hpag & _). split; [eauto|done].
    + split; [done|]. intros (id & t & Hp & Hpag). apply Hl in Hp. congruence.
  - intros id1 id2 t1 t2 Hp1 Ht1 Hp2 Ht2. destruct (isLoading (app w)).
    + destruct Hl as (id & t & _ & _ & Huniq).
      rewrite (Huniq _ _ Hp1 Ht1). by rewrite (Huniq _ _ Hp2 Ht2).
    + apply Hl in Hp1. congruence.
  - intros Hload. unfold step, render. simpl. rewrite Hload.
    by destruct (hasMore (app w)).
  - intros id t r Hp Hpag. unfold step. rewrite Hp.
    pose proof (Hwf _ _ Hp) as K. destruct K; try done.
    run_cases; subst; simpl; try done; by destruct el.
Qed.

Lemma one_paginated_fetch_in_flight_witness :
  let w := steps [ClickLoadMore] mount in
  (isLoading (app w) = true ↔ ∃ id t, pending w !! id = Some t ∧ paginated t = true)
  ∧ (∀ id1 id2 t1 t2,
       pending w !! id1 = Some t1 → paginated t1 = true →
       pending w !! id2 = Some t2 → paginated t2 = true → id1 = id2)
  ∧ (isLoading (app w) = true → step w ClickLoadMore = w)
  ∧ (∀ id t r, pending w !! id = Some t → paginated t = true →
               isLoading (app (step w (SelectSettled id r))) = false).
Proof.
  apply (one_paginated_fetch_in_flight (steps [ClickLoadMore] mount)).
  by exists [ClickLoadMore].
Defined.

(** ** Typing indicator *)

(** X11. A sweep keeps exactly the entries whose age is at most the
    timeout, each as it was (an entry of age exactly [TYPING_TIMEOUT]
    stays); sweeping twice at the same clock reading changes nothing
    more. *)
Theorem sweep_keeps_exactly_the_fresh (now : Z) (m : gmap jsstring TypingUser.t) :
  (∀ uid d,
     Typing.sweep now m !! uid = Some d
     ↔ m !! uid = Some d ∧ now - TypingUser.timestamp d ≤ Typing.TYPING_TIMEOUT)
  ∧ Typing.sweep now (Typing.sweep now m) = Typing.sweep now m.
Proof.
  assert (∀ (m' : gmap jsstring TypingUser.t) uid d,
            Typing.sweep now m' !! uid = Some d
            ↔ m' !! uid = Some d
              ∧ now - TypingUser.timestamp d ≤ Typing.TYPING_TIMEOUT) as Hiff.
  { intros m' uid d. split.
    - intros Hs. pose proof (sweep_Some _ _ _ _ Hs) as Hm. split; [done|].
      destruct (decide (now - TypingUser.timestamp d ≤ Typing.TYPING_TIMEOUT));
        [done|].
      rewrite (sweep_expired now m' uid d) in Hs; [done|done|lia].
    - intros [Hm Hd]. by apply sweep_fresh. }
  split; [apply Hiff|].
  apply map_eq. intros uid.
  destruct (Typing.sweep now m !! uid) as [d|] eqn:E.
  - apply Hiff. split; [done|]. by apply Hiff in E as [_ ?].
  - destruct (Typing.sweep now (Typing.sweep now m) !! uid) as [d|] eqn:E'; [|done].
    apply sweep_Some in E'. congruence.
Qed.

Lemma kept_within_timeout (uid : jsstring) (T at_ : Z)
    (tr : list (Z * Typing.typing_event)) (m : gmap jsstring TypingUser.t) :
  at_ ≤ T + Typing.TYPING_TIMEOUT →
  Forall (λ e, T ≤ e.1 ≤ at_) tr →
  (∃ d, m !! uid = Some d ∧ T ≤ TypingUser.timestamp d ≤ at_) →
  ∃ d, foldl Typing.typing_step m tr !! uid = Some d
       ∧ T ≤ TypingUser.timestamp d ≤ at_.
Proof.
  intros Hat. revert m. induction tr as [|[t e] tr IH]; intros m Hall Hm; [done|].
  inversion Hall as [|?? Ht Hall']; subst. simpl in Ht.
  simpl. apply IH; [done|].
  destruct Hm as (d & Hd & Hts).
  destruct e as [u n|]; unfold Typing.typing_step; simpl.
  - unfold Typing.on_typing. destruct (decide (u = uid)) as [->|Hne].
    + eexists. rewrite lookup_insert_eq. split; [done|]. simpl. lia.
    + exists d. by rewrite lookup_insert_ne.
  - exists d. split; [|done]. apply sweep_fresh; [done|lia].
Qed.

(** X12. An entry is shown for at least the timeout: handled in clock
    order, a broadcast from [uid] at [T] leaves an entry for [uid] at
    every render from [T] to [T + TYPING_TIMEOUT], whatever sweeps run in
    between, with a timestamp no older than [T]. *)
Theorem typing_entry_kept_within_timeout tr T uid name at_ :
  Typing.chronological tr →
  (T, Typing.Broadcast uid name) ∈ tr →
  T ≤ at_ → at_ ≤ T + Typing.TYPING_TIMEOUT →
  ∃ d, Typing.typingUsers_at at_ tr !! uid = Some d
       ∧ T ≤ TypingUser.timestamp d ≤ at_.
Proof.
  intros Hsorted Hin HT Hat.
  apply list_elem_of_split in Hin as (l1 & l2 & ->).
  unfold Typing.typingUsers_at.
  rewrite filter_app, filter_cons_True by done.
  rewrite typing_run_app. simpl.
  apply kept_within_timeout; [done| |].
  - unfold Typing.chronological in Hsorted.
    apply StronglySorted_app_1_r, StronglySorted_cons in Hsorted as [Hall _].
    apply Forall_forall. intros e [He Hin]%list_elem_of_filter.
    rewrite Forall_forall in Hall. specialize (Hall _ Hin). simpl in *. lia.
  - eexists. unfold Typing.typing_step, Typing.on_typing. simpl.
    rewrite lookup_insert_eq. split; [done|]. simpl. lia.
Qed.

Lemma typing_entry_kept_within_timeout_witness :
  ∃ d, Typing.typingUsers_at 4000 typing_on_the_period !! js "u-bob" = Some d
       ∧ 1000 ≤ TypingUser.timestamp d ≤ 4000.
Proof.
  apply (typing_entry_kept_within_timeout typing_on_the_period 1000
           (js "u-bob") (Some (js "bob")) 4000).
  - unfold Typing.chronological, typing_on_the_period.
    repeat constructor; simpl; lia.
  - unfold typing_on_the_period.
    do 2 apply list_elem_of_further. apply list_elem_of_here.
  - lia.
  - reflexivity.
Defined.

(** X13. There is one entry per user, and it is that user's latest
    broadcast: handled in clock order, the entry of [uid] carries the name
    and the clock reading of a broadcast received from [uid], and no
    broadcast from [uid] is later. *)
Theorem typing_entry_is_latest_broadcast tr (uid : jsstring) d :
  Typing.chronological tr →
  Typing.typing_run tr !! uid = Some d →
  (TypingUser.timestamp d, Typing.Broadcast uid (TypingUser.user_name d)) ∈ tr
  ∧ ∀ t name, (t, Typing.Broadcast uid name) ∈ tr → t ≤ TypingUser.timestamp d.
Proof.
  revert d. induction tr as [|[t e] tr IH] using rev_ind; intros d Hsorted Hd.
  { change (Typing.typing_run []) with (∅ : gmap jsstring TypingUser.t) in Hd.
    by rewrite lookup_empty in Hd. }
  rewrite typing_run_app in Hd. simpl in Hd.
  unfold Typing.chronological in Hsorted.
  pose proof (StronglySorted_app_1_l _ _ _ Hsorted) as Hsorted'.
  assert (∀ e', e' ∈ tr → e'.1 ≤ t) as Hle.
  { intros e' He'.
    apply (StronglySorted_app_1_elem_of _ _ _ e' (t, e)) in Hsorted;
      [done|done|apply list_elem_of_here]. }
  destruct e as [u n|]; unfold Typing.typing_step in Hd; simpl in Hd.
  - unfold Typing.on_typing in Hd. destruct (decide (u = uid)) as [->|Hne].
    + rewrite lookup_insert_eq in Hd. injection Hd as <-. simpl. split.
      * apply elem_of_app. right. apply list_elem_of_here.
      * intros t' n' [Hin|Hin]%elem_of_app.
        -- apply (Hle _ Hin).
        -- apply list_elem_of_singleton in Hin. injection Hin as -> _. lia.
    + rewrite lookup_insert_ne in Hd by done.
      destruct (IH d Hsorted' Hd) as [Hin Hlast]. split.
      * apply elem_of_app. by left.
      * intros t' n' [Hin'|Hin']%elem_of_app; [by apply (Hlast t' n')|].
        apply list_elem_of_singleton in Hin'. by injection Hin' as _ <-.
  - apply sweep_Some in Hd. destruct (IH d Hsorted' Hd) as [Hin Hlast]. split.
    + apply elem_of_app. by left.
    + intros t' n' [Hin'|Hin']%elem_of_app; [by apply (Hlast t' n')|].
      by apply list_elem_of_singleton in Hin'.
Qed.

Lemma typing_entry_is_latest_broadcast_witness :
  let d := {| TypingUser.user_name := Some (js "bob");
              TypingUser.timestamp := 1000 |} in
  (TypingUser.timestamp d, Typing.Broadcast (js "u-bob") (TypingUser.user_name d))
    ∈ take 5 typing_on_the_period
  ∧ ∀ t name, (t, Typing.Broadcast (js "u-bob") name) ∈ take 5 typing_on_the_period →
              t ≤ TypingUser.timestamp d.
Proof.
  apply (typing_entry_is_latest_broadcast (take 5 typing_on_the_period) (js "u-bob")).
  - unfold Typing.chronological, typing_on_the_period. simpl.
    repeat constructor; simpl; lia.
  - by vm_compute.
Defined.



(** ** Notification preference *)

(** X15. The preference starts off unless the storage holds exactly the
    text ["true"] under its key (a missing key and any other text read as
    off); setting it writes that key only; and two toggles leave the flag
    as it was, with its text in the storage. *)
Theorem notification_preference_defaults_off (flag : bool)
    (storage : gmap string string) :
  (Preference.initial_isNotificationEnabled storage = true
   ↔ Preference.getItem "isNotificationEnabled" storage = Some "true"%string)
  ∧ (∀ v key, key ≠ "isNotificationEnabled"%string →
       Preference.getItem key (Preference.setNotificationEnabled v (flag, storage)).2
       = Preference.getItem key storage)
  ∧ Preference.toggle (Preference.toggle (flag, storage))
    = (flag, <["isNotificationEnabled"%string := Preference.toString flag]> storage).
Proof.
  split_and!.
  - unfold Preference.initial_isNotificationEnabled.
    by rewrite orb_false_r, bool_decide_eq_true.
  - intros v key Hkey. unfold Preference.getItem, Preference.setNotificationEnabled,
      Preference.setItem. simpl. by rewrite lookup_insert_ne.
  - unfold Preference.toggle, Preference.setNotificationEnabled, Preference.setItem.
    simpl. by rewrite negb_involutive, insert_insert_eq.
Qed.

(** ** Message rows *)

Lemma startsWith_spec s sub : startsWith s sub = true ↔ ∃ post, s = sub ++ post.
Proof.
  revert s. induction sub as [|c sub IH]; intros s; simpl.
  - split; [by exists s | by destruct s].
  - destruct s as [|d s]; simpl.
    + split; [done | by intros [post ?]].
    + rewrite andb_true_iff, bool_decide_eq_true, IH. split.
      * intros [-> [post ->]]. by exists post.
      * intros [post [= -> ->]]. split; [done | by exists post].
Qed.

Lemma includes_spec s sub :
  includes s sub = true ↔ ∃ pre post, s = pre ++ sub ++ post.
Proof.
  induction s as [|d s IH]; cbn [includes].
  - rewrite orb_false_r, startsWith_spec. split.
    + intros [post H]. by exists [], post.
    + intros (pre & post & H). destruct pre; [by exists post|done].
  - rewrite orb_true_iff, startsWith_spec, IH. split.
    + intros [[post H]|(pre & post & ->)]; [by exists [], post|].
      by exists (d :: pre), post.
    + intros ([|d' pre] & post & H); [left; by exists post|].
      right. injection H as -> ->. by exists pre, post.
Qed.

(** X16. Every row is headed by a labelled row of the same author: for
    the message at [i] there is a row at some [j ≤ i] that shows the
    avatar and the name of its author (with the Admin badge exactly when
    the name is "minagishl"), and every message from [j] to [i] has the
    user id of the message at [i]. *)
Theorem row_group_is_headed toLocaleDateString session messages i m :
  messages !! i = Some m →
  ∃ j head,
    (j ≤ i)%nat
    ∧ messages !! j = Some head
    ∧ row_label (render_row toLocaleDateString session messages j head)
      = Some (Message.user_name head,
              bool_decide (Message.user_name head = Some (js "minagishl")))
    ∧ is_Some (row_avatar (render_row toLocaleDateString session messages j head))
    ∧ ∀ k mk, (j ≤ k ≤ i)%nat → messages !! k = Some mk →
              Message.user_id mk = Message.user_id m.
Proof.
  revert m. induction i as [|i IH]; intros m Hm.
  - exists 0%nat, m. split_and!; [done|done|done|by eexists|].
    intros k mk Hk Hmk. assert (k = 0%nat) as -> by lia. congruence.
  - destruct (messages !! i) as [p|] eqn:Hp.
    2: { apply lookup_ge_None in Hp. apply lookup_lt_Some in Hm. lia. }
    destruct (decide (Message.user_id p = Message.user_id m)) as [Heq|Hne].
    + destruct (IH p eq_refl) as (j & head & Hj & Hhead & Hlabel & Hav & Hall).
      exists j, head. split_and!; [lia|done|done|done|].
      intros k mk Hk Hmk. destruct (decide (k = S i)) as [->|Hk'].
      * congruence.
      * rewrite <- Heq. apply (Hall k mk); [lia|done].
    + exists (S i), m.
      assert (bool_decide (Message.user_id <$> Some p = Some (Message.user_id m))
              = false) as Hfalse.
      { apply bool_decide_eq_false. simpl. congruence. }
      split_and!; [done|done| | |].
      * unfold render_row. simpl. rewrite Hp. by rewrite Hfalse.
      * unfold render_row. simpl. rewrite Hp. rewrite Hfalse. by eexists.
      * intros k mk Hk Hmk. assert (k = S i) as -> by lia. congruence.
Qed.

Lemma row_group_is_headed_witness :
  let messages := [message_at "r1" 10; message_at "r2" 20; message_at "r3" 30] in
  ∃ j head,
    (j ≤ 2)%nat
    ∧ messages !! j = Some head
    ∧ row_label (render_row (λ _, ""%string) (Some alice) messages j head)
      = Some (Message.user_name head,
              bool_decide (Message.user_name head = Some (js "minagishl")))
    ∧ is_Some (row_avatar (render_row (λ _, ""%string) (Some alice) messages j head))
    ∧ ∀ k mk, (j ≤ k ≤ 2)%nat → messages !! k = Some mk →
              Message.user_id mk = Message.user_id (message_at "r3" 30).
Proof.
  apply (row_group_is_headed (λ _, ""%string) (Some alice)
           [message_at "r1" 10; message_at "r2" 20; message_at "r3" 30] 2).
  reflexivity.
Defined.

(** X17. A viewer's own message always gets the own bubble, whatever it
    mentions.  A message of someone else is highlighted exactly when its
    content contains "@everyone" or "@" followed by the text the template
    literal gives for the viewer's user name: the name itself, "null" for
    a null name, "undefined" for an absent one and for a viewer without a
    session. *)
Theorem mention_highlight toLocaleDateString session messages index m :
  let row := render_row toLocaleDateString session messages index m in
  let contains text := ∃ pre post, Message.content m = pre ++ text ++ post in
  (session_user_id session = Some (Message.user_id m) → row_bubble row = OwnBubble)
  ∧ (session_user_id session ≠ Some (Message.user_id m) →
     (row_bubble row = MentionBubble
      ↔ contains (js "@everyone")
        ∨ contains (js "@" ++ match session_user_name session with
                              | json_text name => name
                              | json_null => js "null"
                              | absent => js "undefined"
                              end))
     ∧ (row_bubble row = MentionBubble ∨ row_bubble row = PlainBubble))
  ∧ (session = None →
     (row_bubble row = MentionBubble
      ↔ contains (js "@everyone") ∨ contains (js "@undefined"))).
Proof.
  intros row contains.
  assert (session_user_id session ≠ Some (Message.user_id m) →
          (row_bubble row = MentionBubble
           ↔ contains (js "@everyone")
             ∨ contains (js "@" ++ template_text (session_user_name session)))
          ∧ (row_bubble row = MentionBubble ∨ row_bubble row = PlainBubble)) as Hother.
  { intros Hne. subst row contains. unfold render_row. cbn [row_bubble].
    rewrite bool_decide_eq_false_2 by done.
    rewrite <- !includes_spec, <- orb_true_iff.
    destruct (_ || _); split; try done; [by left | by right]. }
  split_and!.
  - intros Hown. subst row. unfold render_row. cbn [row_bubble].
    by rewrite bool_decide_eq_true_2.
  - done.
  - intros ->. by apply Hother.
Qed.

Lemma mention_highlight_witness :
  let viewer :=
    Some {| Session.user :=
              {| User.id := js "u-carol"; User.email := None;
                 User.user_metadata :=
                   {| UserMetadata.user_name := json_null;
                      UserMetadata.avatar_url := None |} |} |} in
  let m := {| Message.id := js "m"; Message.user_id := js "u-bob";
              Message.content := js "ping @null"; Message.created_at := 1;
              Message.user_avatar := None; Message.user_name := None |} in
  let row := render_row (λ _, ""%string) viewer [m] 0 m in
  let contains text := ∃ pre post, Message.content m = pre ++ text ++ post in
  (row_bubble row = MentionBubble
   ↔ contains (js "@everyone") ∨ contains (js "@" ++ js "null"))
  ∧ (row_bubble row = MentionBubble ∨ row_bubble row = PlainBubble).
Proof.
  intros viewer m.
  apply (proj1 (proj2 (mention_highlight (λ _, ""%string) viewer [m] 0 m))).
  vm_compute. discriminate.
Defined.

Example null_user_name_is_highlighted_by_at_null :
  row_bubble
    (render_row (λ _, ""%string)
       (Some {| Session.user :=
                  {| User.id := js "u-carol"; User.email := None;
                     User.user_metadata :=
                       {| UserMetadata.user_name := json_null;
                          UserMetadata.avatar_url := None |} |} |})
       [] 0
       {| Message.id := js "m"; Message.user_id := js "u-bob";
          Message.content := js "ping @null"; Message.created_at := 1;
          Message.user_avatar := None; Message.user_name := None |})
  = MentionBubble.
Proof. reflexivity. Qed.

Example logged_out_viewer_sees_undefined_highlighted :
  row_bubble
    (render_row (λ _, ""%string) None [] 0
       {| Message.id := js "m"; Message.user_id := js "u-bob";
          Message.content := js "hi @undefined"; Message.created_at := 1;
          Message.user_avatar := None; Message.user_name := None |})
  = MentionBubble.
Proof. reflexivity. Qed.

(** ** Notifications *)

Lemma Toast_in_snoc msg l e : Toast msg ∈ l ++ [e] ↔ Toast msg ∈ l ∨ e = Toast msg.
Proof.
  rewrite elem_of_app, list_elem_of_singleton.
  split; (intros [?|?]; [by left | by right]).
Qed.

(** X18. A notification is shown for nothing but a backend error: if a
    step adds a toast to the log, the event is the settlement with an
    error of a suspended insert, select, login or logout, and the text is
    the one of that call site. *)
Theorem toast_only_on_backend_error w ev msg :
  reachable w →
  Toast msg ∈ log (step w ev) →
  Toast msg ∈ log w
  ∨ ∃ id t pe ae, pending w !! id = Some t
                  ∧ failure_of id t pe ae = Some (ev, msg).
Proof.
  intros Hr. pose proof (reachable_wf _ Hr) as H.
  destruct ev; unfold step; try settle_cases H; try (by left);
    run_cases; subst; simpl;
    rewrite ?Toast_in_snoc; try (destruct el; simpl);
    rewrite ?Toast_in_snoc;
    intros Hin;
    repeat match type of Hin with _ ∨ _ => destruct Hin as [Hin|Hin] end;
    try (by left); try discriminate;
    right; injection Hin as <-.
  all: try (eexists _, _, _, {| auth_message := [] |}; split; [done|]; done).
  all: try (eexists _, _, {| postgrest_message := [] |}, _; split; [done|]; done).
Qed.

Lemma toast_only_on_backend_error_witness :
  let ev := SelectSettled 1 (Failure {| postgrest_message := js "timeout" |}) in
  Toast "Failed to fetch messages" ∈ log mount
  ∨ ∃ id t pe ae, pending mount !! id = Some t
                  ∧ failure_of id t pe ae = Some (ev, "Failed to fetch messages"%string).
Proof.
  apply (toast_only_on_backend_error mount
           (SelectSettled 1 (Failure {| postgrest_message := js "timeout" |}))).
  - by exists [].
  - vm_compute. repeat first [apply list_elem_of_here | apply list_elem_of_further].
Defined.

Lemma notification_preference_defaults_off_witness :
  Preference.initial_isNotificationEnabled {[ "isNotificationEnabled"%string := "1"%string ]}
  = false
  ∧ Preference.getItem "theme"
      (Preference.setNotificationEnabled true
         (false, {[ "theme"%string := "dark"%string ]})).2
    = Some "dark"%string.
Proof.
  split.
  - apply not_true_is_false. intros H.
    by apply (proj1 (notification_preference_defaults_off false _)) in H.
  - by rewrite (proj1 (proj2 (notification_preference_defaults_off false
                                 {[ "theme"%string := "dark"%string ]}))
                  true "theme"%string).
Defined.
